(** * Open-AutoGLM: the model response parser and the agent control loop

    A shallow embedding of [phone_agent/model/client.py] and
    [phone_agent/agent.py], with the properties of the response protocol
    parser, the streaming preview, the retry tracker and the step loop,
    and of the functions of [test.py] that keep the settings file.

    Python values are modelled as the code has them: a [str] is a sequence
    of Unicode code points, an action is a dictionary from string keys to
    dynamically typed values, an exception is a value that either reaches
    an [except] clause or leaves the function. *)

From Stdlib Require Import ZArith NArith Ascii String List Lia Bool DecimalString.
From stdpp Require Import base gmap strings list.

Local Open Scope Z_scope.

(** ** Python strings *)

Module PyStr.

(** A code point, and a [str] as the list of its code points. *)
Definition char := N.
Abbreviation pystr := (list N).

(** UTF-8 decoding of the bytes of a literal of this file, so that the
    string constants of the source can be written as they are there. *)
Fixpoint utf8_decode (bs : list N) : pystr :=
  match bs with
  | [] => []
  | b :: r =>
    if (b <? 128)%N then b :: utf8_decode r
    else if (b <? 224)%N then
      match r with
      | b1 :: r1 => ((b - 192) * 64 + (b1 - 128))%N :: utf8_decode r1
      | _ => []
      end
    else if (b <? 240)%N then
      match r with
      | b1 :: b2 :: r2 =>
        ((b - 224) * 4096 + (b1 - 128) * 64 + (b2 - 128))%N :: utf8_decode r2
      | _ => []
      end
    else
      match r with
      | b1 :: b2 :: b3 :: r3 =>
        ((b - 240) * 262144 + (b1 - 128) * 4096 + (b2 - 128) * 64 + (b3 - 128))%N
          :: utf8_decode r3
      | _ => []
      end
  end.

Definition py (s : string) : pystr :=
  utf8_decode (map N_of_ascii (list_ascii_of_string s)).

(** [str.isspace] on one code point: the characters [str.strip()] removes
    and the class [\s] of [re] on [str] patterns. *)
Definition isspace (c : char) : bool :=
  ((9 <=? c) && (c <=? 13) || (28 <=? c) && (c <=? 32)
   || (c =? 133) || (c =? 160) || (c =? 5760)
   || (8192 <=? c) && (c <=? 8202)
   || (c =? 8232) || (c =? 8233) || (c =? 8239) || (c =? 8287)
   || (c =? 12288))%N.

Definition eqb (a b : pystr) : bool := bool_decide (a = b).

(** [s.startswith(p)] *)
Fixpoint startswith (p s : pystr) : bool :=
  match p, s with
  | [], _ => true
  | _ :: _, [] => false
  | a :: p', b :: s' => (a =? b)%N && startswith p' s'
  end.

(** [s.endswith(p)] *)
Definition endswith (s p : pystr) : bool := startswith (rev p) (rev s).

(** [text.find(a)]: the lowest index at which [a] occurs, [-1] if none. *)
Fixpoint find_aux (a text : pystr) (i : Z) : Z :=
  if startswith a text then i
  else match text with
       | [] => -1
       | _ :: t => find_aux a t (i + 1)
       end.

Definition find (text a : pystr) : Z := find_aux a text 0.


(** Slice bounds as Python clamps them: a negative index counts from the
    end, and every index is brought into [0, len]. *)
Definition slice_index (n : nat) (i : Z) : nat :=
  if i <? 0 then Z.to_nat (Z.max 0 (i + Z.of_nat n))
  else Z.to_nat (Z.min i (Z.of_nat n)).

(** [text.find(a, start)]: the search starts at the clamped [start]; a
    [start] beyond the end finds nothing, not even the empty string. *)
Definition find_from (text a : pystr) (start : Z) : Z :=
  if Z.of_nat (length text) <? start then -1
  else
    let lo := slice_index (length text) start in
    find_aux a (drop lo text) (Z.of_nat lo).

(** [a in text] *)
Definition contains (a text : pystr) : bool := negb (find text a =? -1).

(** [text[i:]] *)
Definition slice_from (text : pystr) (i : Z) : pystr :=
  drop (slice_index (length text) i) text.

(** [text[:j]] *)
Definition slice_to (text : pystr) (j : Z) : pystr :=
  take (slice_index (length text) j) text.

(** [text[i:j]] *)
Definition slice (text : pystr) (i j : Z) : pystr :=
  let lo := slice_index (length text) i in
  let hi := slice_index (length text) j in
  take (hi - lo)%nat (drop lo text).

(** [text.split(sep, 1)] for a non-empty [sep]. The list Python returns
    has one or two parts: [parts[0]] is the first component, [parts[1]] the
    second, absent when [sep] does not occur. *)
Definition split1 (text sep : pystr) : pystr * option pystr :=
  let k := find text sep in
  if k =? -1 then (text, None)
  else (slice_to text k, Some (slice_from text (k + Z.of_nat (length sep)))).

Fixpoint lstrip (s : pystr) : pystr :=
  match s with
  | c :: t => if isspace c then lstrip t else s
  | [] => []
  end.

Definition rstrip (s : pystr) : pystr := rev (lstrip (rev s)).

(** [s.strip()] *)
Definition strip (s : pystr) : pystr := rstrip (lstrip s).

(** [re.sub(r"\s+", repl, s)]: every maximal run of whitespace is replaced
    by [repl]; [in_run] tells that the previous character was whitespace. *)
Fixpoint sub_ws_from (in_run : bool) (repl s : pystr) : pystr :=
  match s with
  | [] => []
  | c :: t =>
    if isspace c then
      (if in_run then [] else repl) ++ sub_ws_from true repl t
    else c :: sub_ws_from false repl t
  end.

Definition sub_ws (repl s : pystr) : pystr := sub_ws_from false repl s.

(** Decimal rendering of an [int], as [str(n)] gives it. *)
Definition str_of_int (z : Z) : pystr :=
  py (NilEmpty.string_of_int (Z.to_int z)).

End PyStr.
Export PyStr.

(** ** Exceptions *)

(** The exception classes that matter to the [except] clauses of the
    source: [except ValueError] catches the first, [except Exception] all
    but [KeyboardInterrupt], which derives from [BaseException] only. *)
Inductive exn_class :=
  | ValueError | TypeError | IndexError | RuntimeError | KeyboardInterrupt.

(** A raised exception: its class and [str(e)]. *)
Record exn := Exn { exn_cls : exn_class; exn_text : pystr }.

Definition is_ValueError (e : exn) : bool :=
  match exn_cls e with ValueError => true | _ => false end.

Definition is_Exception (e : exn) : bool :=
  match exn_cls e with KeyboardInterrupt => false | _ => true end.

(** The outcome of a call: a value, or an exception on its way up. *)
Inductive pyresult (A : Type) :=
  | Ok (a : A)
  | Raise (e : exn).
Arguments Ok {A} a.
Arguments Raise {A} e.

Definition is_Ok {A} (r : pyresult A) : bool :=
  match r with Ok _ => true | Raise _ => false end.

Definition rbind {A B} (r : pyresult A) (k : A -> pyresult B) : pyresult B :=
  match r with
  | Ok a => k a
  | Raise e => Raise e
  end.

(** [parts[1]] on the result of [split]: an [IndexError] when absent. *)
Definition second_part (parts : pystr * option pystr) : pyresult pystr :=
  match snd parts with
  | Some p => Ok p
  | None => Raise (Exn IndexError (py "list index out of range"))
  end.

(** ** phone_agent/model/client.py *)

Module Client.

Definition LT : char := 60%N.
Definition GT : char := 62%N.

(** The longest prefix free of [>], and the rest. *)
Fixpoint span_not_gt (s : pystr) : pystr * pystr :=
  match s with
  | [] => ([], [])
  | c :: t =>
    if (c =? GT)%N then ([], s)
    else let '(body, rest) := span_not_gt t in (c :: body, rest)
  end.

(** One match of [_TAG_RE = <[^>]+>] at the head of [s]: the text between
    the delimiters and what follows the match. The greedy class takes
    every character up to the next [>]; it needs at least one. *)
Definition tag_match (s : pystr) : option (pystr * pystr) :=
  match s with
  | c :: t =>
    if (c =? LT)%N then
      match span_not_gt t with
      | ((_ :: _) as body, g :: rest) => Some (body, rest)
      | _ => None
      end
    else None
  | [] => None
  end.

(** [repl]: the matched tag with its whitespace removed,
    [re.sub(r"\s+", "", m.group(0))]. *)
Definition repl (body : pystr) : pystr :=
  sub_ws [] (LT :: body ++ [GT]).

(** [_TAG_RE.sub(repl, text)]: the matches are taken from left to right
    and do not overlap. Every round consumes a character, so [length text]
    rounds are enough. *)
Fixpoint tag_sub (fuel : nat) (s : pystr) : pystr :=
  match fuel with
  | O => s
  | S fuel' =>
    match tag_match s with
    | Some (body, rest) => repl body ++ tag_sub fuel' rest
    | None =>
      match s with
      | [] => []
      | c :: t => c :: tag_sub fuel' t
      end
    end
  end.

Definition _normalize_xmlish_tags (text : pystr) : pystr :=
  tag_sub (length text) text.

Definition _extract_between (text a b : pystr) : pystr :=
  let i := find text a in
  if i =? -1 then []
  else
    let i := i + Z.of_nat (length a) in
    let j := find_from text b i in
    if j =? -1 then slice_from text i
    else slice text i j.

Definition THINK_OPEN := py "<think_text>".
Definition THINK_CLOSE := py "</think_text>".
Definition TOOL_OPEN := py "<tool_call>".
Definition TOOL_CLOSE := py "</tool_call>".
Definition FINISH_MARKER := py "finish(message=".
Definition DO_MARKER := py "do(action=".

(** [ModelClient._parse_response]; Python's truth test [not action] on a
    [str] is emptiness. *)
Definition _parse_response (content : pystr) : pyresult (pystr * pystr) :=
  let c := _normalize_xmlish_tags content in
  if contains TOOL_OPEN c then
    let thinking := strip (_extract_between c THINK_OPEN THINK_CLOSE) in
    let thinking := strip (sub_ws (py " ") thinking) in
    let action := strip (_extract_between c TOOL_OPEN TOOL_CLOSE) in
    let action :=
      match action with
      | [] =>
        let pos := find c TOOL_OPEN + Z.of_nat (length TOOL_OPEN) in
        strip (slice_from c pos)
      | _ => action
      end in
    Ok (thinking, action)
  else if contains FINISH_MARKER content then
    let parts := split1 content FINISH_MARKER in
    let thinking := strip (fst parts) in
    rbind (second_part parts) (fun p =>
    Ok (thinking, FINISH_MARKER ++ p))
  else if contains DO_MARKER content then
    let parts := split1 content DO_MARKER in
    let thinking := strip (fst parts) in
    rbind (second_part parts) (fun p =>
    Ok (thinking, DO_MARKER ++ p))
  else Ok ([], strip content).

(** The tag tracking state of the client, [_in_tag] and [_tag_buffer]. *)
Record tag_state := TagState { _in_tag : bool; _tag_buffer : pystr }.

(** The character loop of [_clean_stream_content]. *)
Fixpoint clean_chars (text : pystr) (st : tag_state) : pystr * tag_state :=
  match text with
  | [] => ([], st)
  | ch :: t =>
    if (ch =? LT)%N && negb (_in_tag st) then
      clean_chars t (TagState true [LT])
    else if (ch =? GT)%N && _in_tag st then
      clean_chars t (TagState false [])
    else if _in_tag st then
      clean_chars t (TagState true (_tag_buffer st ++ [ch]))
    else
      let '(cs, st') := clean_chars t st in (ch :: cs, st')
  end.

Definition _clean_stream_content (text : pystr) (st : tag_state)
  : pystr * tag_state :=
  let '(clean_chars, st') := clean_chars text st in
  (strip (sub_ws (py " ") clean_chars), st').

(** A chunk of the stream: [delta.content] of each of its choices. *)
Record chunk := Chunk { choices : list (option pystr) }.

Definition action_markers : list pystr := [FINISH_MARKER; DO_MARKER].

(** The local variables of [request] that live across the iterations of
    the stream loop. The two time stamps are kept as the facts the loop
    tests: whether they have been taken. *)
Record stream_state := StreamState {
  raw_content : pystr;
  buffer : pystr;
  in_action_phase : bool;
  first_token_received : bool;
  thinking_end_recorded : bool;
  tags : tag_state
}.

Definition stream_init : stream_state :=
  StreamState [] [] false false false (TagState false []).

(** The first loop over [action_markers]: the text before the first marker
    of the list that the buffer contains, [buffer.split(marker, 1)[0]]. *)
Fixpoint detect_marker (markers : list pystr) (buf : pystr) : option pystr :=
  match markers with
  | [] => None
  | marker :: ms =>
    if contains marker buf then Some (fst (split1 buf marker))
    else detect_marker ms buf
  end.

(** [marker[:i] for i in range(1, len(marker))] *)
Definition marker_prefixes (marker : pystr) : list pystr :=
  map (fun i => take i marker) (seq 1 (length marker - 1)).

(** The second loop: does the buffer end with the beginning of a marker? *)
Definition is_potential_marker (markers : list pystr) (buf : pystr) : bool :=
  existsb (fun marker => existsb (endswith buf) (marker_prefixes marker)) markers.

(** [print(text, end="")] when [text] is not empty. *)
Definition print_nonempty (text : pystr) : list pystr :=
  match text with
  | [] => []
  | _ => [text]
  end.

Definition NEWLINE : pystr := [10%N].

(** One iteration of [for chunk in stream]: the new state and what the
    iteration writes to the standard output. *)
Definition request_chunk (st : stream_state) (ch : chunk)
  : stream_state * list pystr :=
  match choices ch with
  | [] => (st, [])
  | None :: _ => (st, [])
  | Some content :: _ =>
    let raw := raw_content st ++ content in
    if in_action_phase st then
      (StreamState raw (buffer st) true true (thinking_end_recorded st) (tags st), [])
    else
      let buf := buffer st ++ content in
      match detect_marker action_markers buf with
      | Some thinking_part =>
        let '(clean_thinking, tg) := _clean_stream_content thinking_part (tags st) in
        (StreamState raw buf true true true tg,
         print_nonempty clean_thinking ++ [NEWLINE])
      | None =>
        if is_potential_marker action_markers buf then
          (StreamState raw buf false true (thinking_end_recorded st) (tags st), [])
        else
          let '(clean_buffer, tg) := _clean_stream_content buf (tags st) in
          (StreamState raw [] false true (thinking_end_recorded st) tg,
           print_nonempty clean_buffer)
      end
  end.

(** The whole loop, with everything it printed. *)
Fixpoint request_loop (st : stream_state) (chunks : list chunk)
  : stream_state * list pystr :=
  match chunks with
  | [] => (st, [])
  | ch :: rest =>
    let '(st1, out1) := request_chunk st ch in
    let '(st2, out2) := request_loop st1 rest in
    (st2, out1 ++ out2)
  end.

(** [ModelResponse], without the three durations; its field
    [raw_content] is [response_raw_content] here. *)
Record ModelResponse := MkModelResponse {
  thinking : pystr;
  action : pystr;
  response_raw_content : pystr
}.

(** What the transport delivers for one call: the chunks the stream
    yields and, when the call or the iteration fails, the exception that
    ends it. *)
Definition stream_outcome : Type := list chunk * option exn.

(** [ModelClient.request] on a given behaviour of the transport: the
    response or the exception, and the preview printed by the loop. The
    report of the durations, printed after the loop, is left out. *)
Definition request (stream : stream_outcome) : pyresult ModelResponse * list pystr :=
  let '(st, out) := request_loop stream_init (fst stream) in
  match snd stream with
  | Some e => (Raise e, out)
  | None =>
    (rbind (_parse_response (raw_content st)) (fun '(thinking, action) =>
     Ok (MkModelResponse thinking action (raw_content st))), out)
  end.

#[global] Arguments py : simpl never.
#[global] Arguments action_markers : simpl never.
#[global] Arguments detect_marker : simpl never.
#[global] Arguments is_potential_marker : simpl never.
#[global] Arguments _clean_stream_content : simpl never.
#[global] Arguments _parse_response : simpl never.
#[global] Arguments _normalize_xmlish_tags : simpl never.
#[global] Arguments request : simpl never.

End Client.

(** ** phone_agent/agent.py *)

(** The values an action dictionary holds: [None], booleans, integers,
    strings and lists of these. Floats and nested dictionaries are left
    out. *)
#[warnings="-register-all"]
Inductive pyval :=
  | PNone
  | PBool (b : bool)
  | PInt (z : Z)
  | PStr (s : pystr)
  | PList (l : list pyval).

(** The truth value of a Python value, as [if x], [not x] and [x or y]
    take it. *)
Definition truthy (v : pyval) : bool :=
  match v with
  | PNone => false
  | PBool b => b
  | PInt z => negb (z =? 0)
  | PStr s => match s with [] => false | _ => true end
  | PList l => match l with [] => false | _ => true end
  end.

(** [a == b]; [True] and [False] are the integers [1] and [0]. *)
Fixpoint py_eq (a b : pyval) : bool :=
  match a, b with
  | PNone, PNone => true
  | PBool x, PBool y => Bool.eqb x y
  | PBool x, PInt z => z =? (if x then 1 else 0)
  | PInt z, PBool x => z =? (if x then 1 else 0)
  | PInt x, PInt y => x =? y
  | PStr x, PStr y => PyStr.eqb x y
  | PList x, PList y =>
    (fix go (x y : list pyval) : bool :=
       match x, y with
       | [], [] => true
       | a :: x', b :: y' => py_eq a b && go x' y'
       | _, _ => false
       end) x y
  | _, _ => false
  end.

(** [x or y] *)
Definition py_or (x y : pyval) : pyval := if truthy x then x else y.

(** An action, [Dict[str, Any]]. *)
Abbreviation pydict := (gmap string pyval).

(** [action.get(key)] and [action.get(key, default)] *)
Definition get (a : pydict) (key : string) : pyval := default PNone (a !! key).
Definition get_or (a : pydict) (key : string) (d : pyval) : pyval :=
  default d (a !! key).

(** Modelled from the spec: the constructor [finish] of
    [phone_agent.actions.handler] is not part of the sources at hand. The
    specification gives [makeFinish(message) -> StructuredAction], the
    variant [Finish(message)] of an action whose discriminator is
    ["finish"]; as a dictionary, the discriminator is the entry
    [_metadata] that [_execute_step] reads and the message the entry
    [message]. *)
Definition finish (message : pyval) : pydict :=
  <["_metadata" := PStr (py "finish")]> (<["message" := message]> ∅).

(** ** Messages of the conversation, [MessageBuilder] *)

Inductive content_item :=
  | ImageUrl (url : pystr)
  | TextItem (text : pystr).

Inductive message_content :=
  | ContentStr (s : pystr)
  | ContentList (items : list content_item).

Record message := Message { role : pystr; content : message_content }.

Definition create_system_message (content : pystr) : message :=
  Message (py "system") (ContentStr content).

(** [if image_base64:] holds for a non-empty string. *)
Definition create_user_message (text : pystr) (image_base64 : option pystr)
  : message :=
  let image :=
    match image_base64 with
    | Some ((_ :: _) as b64) => [ImageUrl (py "data:image/png;base64," ++ b64)]
    | _ => []
    end in
  Message (py "user") (ContentList (image ++ [TextItem text])).

Definition create_assistant_message (content : pystr) : message :=
  Message (py "assistant") (ContentStr content).

Definition is_text (item : content_item) : bool :=
  match item with TextItem _ => true | ImageUrl _ => false end.

Definition remove_images_from_message (m : message) : message :=
  match content m with
  | ContentList items => Message (role m) (ContentList (filter is_text items))
  | ContentStr _ => m
  end.

(** [json.dumps(s, ensure_ascii=False)] on a string: quotes, backslashes
    and control characters are escaped, everything else is left. *)
Definition hex_digit (n : N) : char :=
  (if n <? 10 then 48 + n else 87 + n)%N.

Definition json_escape_char (c : char) : pystr :=
  if (c =? 34)%N then py "\" ++ [34%N]
  else if (c =? 92)%N then py "\\"
  else if (c =? 10)%N then py "\n"
  else if (c =? 13)%N then py "\r"
  else if (c =? 9)%N then py "\t"
  else if (c =? 8)%N then py "\b"
  else if (c =? 12)%N then py "\f"
  else if (c <? 32)%N then py "\u00" ++ [hex_digit (c / 16); hex_digit (c mod 16)]
  else [c].

Definition json_string (s : pystr) : pystr :=
  [34%N] ++ concat (map json_escape_char s) ++ [34%N].

(** [MessageBuilder.build_screen_info(current_app)], called without extra
    information: the JSON text of [{"current_app": current_app}]. *)
Definition build_screen_info (current_app : pystr) : pystr :=
  py "{" ++ json_string (py "current_app") ++ py ": "
     ++ json_string current_app ++ py "}".

(** ** The agent *)

Record AgentConfig := {
  max_steps : Z;
  device_id : option pystr;
  lang : pystr;
  system_prompt : pystr;
  verbose : bool;
  retry_reminder_threshold : Z
}.

(** [AgentConfig()], the defaults of the dataclass; [__post_init__] takes
    the system prompt from the locale tables, here [prompt]. *)
Definition AgentConfig_default (prompt : pystr) : AgentConfig := {|
  max_steps := 100;
  device_id := None;
  lang := py "cn";
  system_prompt := prompt;
  verbose := true;
  retry_reminder_threshold := 3
|}.

(** [StepResult]; its fields [action], [thinking] and [message] carry the
    prefix [step_] here, the response of the model having fields of the
    same names. *)
Record StepResult := MkStepResult {
  success : bool;
  finished : bool;
  step_action : option pydict;
  step_thinking : pystr;
  step_message : pyval
}.

(** The fields of a [PhoneAgent] that change. *)
Record agent := MkAgent {
  _context : list message;
  _step_count : Z;
  _last_action_type : pyval;
  _last_action_target : pyval;
  _retry_count : Z
}.

(** What the device snapshot provider and the executor return. *)
Record Screenshot := { base64_data : pystr; width : Z; height : Z }.
Record ActionResult := {
  result_success : bool;
  should_finish : bool;
  result_message : option pystr
}.

Definition pyval_of_opt (o : option pystr) : pyval :=
  match o with Some s => PStr s | None => PNone end.

(** The collaborators of the agent, which are not part of the core: the
    device, the transport of the model client, the decoder of action
    texts and the executor. They act on the outside world [W], and each
    may raise. [repr_list] is the rendering of a list by the Python
    runtime. *)
Class Collaborators (W : Type) := {
  get_screenshot : option pystr -> W -> pyresult Screenshot * W;
  get_current_app : option pystr -> W -> pyresult pystr * W;
  open_stream : list message -> W -> Client.stream_outcome * W;
  parse_action : pystr -> pyresult pydict;
  execute : pydict -> Z -> Z -> W -> pyresult ActionResult * W;
  repr_list : list pyval -> pystr
}.

(** A computation of the agent: it starts from the fields of the agent
    and the outside world, and returns or raises, leaving both as they
    are at that moment. *)
Definition M (W A : Type) : Type := agent * W -> pyresult A * (agent * W).

#[global] Instance M_ret {W} : MRet (M W) := fun A a s => (Ok a, s).

#[global] Instance M_bind {W} : MBind (M W) := fun A B k m s =>
  match m s with
  | (Ok a, s') => k a s'
  | (Raise e, s') => (Raise e, s')
  end.

Definition raise {W A} (e : exn) : M W A := fun s => (Raise e, s).

(** Reading and updating the fields of the agent. *)
Definition read {W} : M W agent := fun s => (Ok (fst s), s).
Definition update {W} (f : agent -> agent) : M W unit :=
  fun s => (Ok tt, (f (fst s), snd s)).

(** A call to a collaborator. *)
Definition call {W A} (f : W -> pyresult A * W) : M W A :=
  fun s => let '(r, w) := f (snd s) in (r, (fst s, w)).

(** A call that cannot raise. *)
Definition call_total {W A} (f : W -> A * W) : M W A :=
  fun s => let '(a, w) := f (snd s) in (Ok a, (fst s, w)).

(** A result that does not touch the state. *)
Definition pure_result {W A} (r : pyresult A) : M W A := fun s => (r, s).

(** [try: m  except C as e: ...]: an exception of [m] that the clause
    catches is handed over as a value, any other goes on. *)
Definition try_except {W A} (m : M W A) (catches : exn -> bool) : M W (A + exn) :=
  fun s =>
    match m s with
    | (Ok a, s') => (Ok (inl a), s')
    | (Raise e, s') => if catches e then (Ok (inr e), s') else (Raise e, s')
    end.

Section Agent.

Context {W : Type} `{Collaborators W} (config : AgentConfig).

(** [str(v)], as the format strings of the agent apply it. *)
Definition py_str (v : pyval) : pystr :=
  match v with
  | PNone => py "None"
  | PBool true => py "True"
  | PBool false => py "False"
  | PInt z => str_of_int z
  | PStr s => s
  | PList l => repr_list l
  end.

(** [len(text)] and [text[:n] + "..."] on a value that should be a
    string: a list has a length but does not take a string appended, the
    other values have no length. *)
Definition _truncate_text (text : pyval) (max_length : Z) : pyresult pyval :=
  match text with
  | PStr s =>
    if Z.of_nat (length s) <=? max_length then Ok text
    else Ok (PStr (slice_to s (max_length - 3) ++ py "..."))
  | PList l =>
    if Z.of_nat (length l) <=? max_length then Ok text
    else Raise (Exn TypeError (py "can only concatenate list (not " ++ [34%N]
                                  ++ py "str" ++ [34%N] ++ py ") to list"))
  | PNone => Raise (Exn TypeError (py "object of type 'NoneType' has no len()"))
  | PBool _ => Raise (Exn TypeError (py "object of type 'bool' has no len()"))
  | PInt _ => Raise (Exn TypeError (py "object of type 'int' has no len()"))
  end.

Definition is_do (a : pydict) : bool := py_eq (get a "_metadata") (PStr (py "do")).
Definition is_finish (a : pydict) : bool :=
  py_eq (get a "_metadata") (PStr (py "finish")).

(** [name in {...}] on a set of strings: the name is hashed first, which a
    list does not allow. *)
Definition in_set (name : pyval) (names : list string) : pyresult bool :=
  match name with
  | PList _ => Raise (Exn TypeError (py "unhashable type: 'list'"))
  | _ => Ok (existsb (fun n => py_eq name (PStr (py n))) names)
  end.

Definition _format_action_target (a : pydict) : pyresult pyval :=
  if is_finish a then Ok (get_or a "message" (PStr []))
  else if negb (is_do a) then Ok (PStr [])
  else
    let action_name := get a "action" in
    if py_eq action_name (PStr (py "Launch")) then Ok (get_or a "app" (PStr []))
    else
    rbind (in_set action_name ["Tap"; "Double Tap"; "Long Press"]) (fun point =>
    if point then
      match get a "element" with
      | PList (x :: y :: _) =>
        Ok (PStr (py "(" ++ py_str x ++ py ", " ++ py_str y ++ py ")"))
      | _ => Ok (PStr [])
      end
    else if py_eq action_name (PStr (py "Swipe")) then
      match get a "start", get a "end" with
      | PList (x0 :: y0 :: _), PList (x1 :: y1 :: _) =>
        Ok (PStr (py "(" ++ py_str x0 ++ py ", " ++ py_str y0 ++ py ") -> ("
                  ++ py_str x1 ++ py ", " ++ py_str y1 ++ py ")"))
      | _, _ => Ok (PStr [])
      end
    else
    rbind (in_set action_name ["Type"; "Type_Name"]) (fun typing =>
    if typing then
      rbind (_truncate_text (get_or a "text" (PStr [])) 50) (fun t =>
      Ok (PStr (py "text='" ++ py_str t ++ py "'")))
    else if py_eq action_name (PStr (py "Wait"))
    then Ok (get_or a "duration" (PStr []))
    else
    rbind (in_set action_name ["Back"; "Home"]) (fun navigation =>
    if navigation then Ok (PStr (py "navigation"))
    else if py_eq action_name (PStr (py "Take_over"))
    then Ok (get_or a "message" (PStr []))
    else Ok (PStr [])))).

Definition _reset_action_tracking (a : agent) : agent :=
  MkAgent (_context a) (_step_count a) PNone PNone 0.

(** The type under which an action is tracked. *)
Definition action_type_of (a : pydict) : pyval :=
  if is_do a then get a "action" else get a "_metadata".

Definition _update_last_action_state (act : pydict) : M W unit :=
  let action_type := action_type_of act in
  action_target ← pure_result (_format_action_target act);
  update (fun a =>
    if truthy action_type
       && py_eq action_type (_last_action_type a)
       && py_eq action_target (_last_action_target a)
    then MkAgent (_context a) (_step_count a) (_last_action_type a)
                 (_last_action_target a) (_retry_count a + 1)
    else MkAgent (_context a) (_step_count a) action_type action_target
                 (if truthy action_type then 1 else 0)).

Definition ESCALATION : pystr := py "。请考虑其他策略或调用 finish 请求人工接管。".

Definition _build_retry_note (a : agent) : option pystr :=
  if negb (truthy (_last_action_type a)) || (_retry_count a <=? 0) then None
  else
    let target :=
      if truthy (_last_action_target a)
      then py " " ++ py_str (_last_action_target a) else [] in
    let note :=
      py "已尝试 " ++ py_str (_last_action_type a) ++ target ++ py " 共 "
         ++ str_of_int (_retry_count a) ++ py " 次，界面未变化/状态仍未达成" in
    let threshold := retry_reminder_threshold config in
    if negb (threshold =? 0) && (threshold <=? _retry_count a)
    then Some (note ++ ESCALATION)
    else Some note.

Definition _compose_user_text (a : agent) (base_text : pystr) : pystr :=
  match _build_retry_note a with
  | Some ((_ :: _) as retry_note) => retry_note ++ [10; 10]%N ++ base_text
  | _ => base_text
  end.

(** [self._context.append(m)] *)
Definition append_context (m : message) : M W unit :=
  update (fun a => MkAgent (_context a ++ [m]) (_step_count a)
                     (_last_action_type a) (_last_action_target a) (_retry_count a)).

(** [self._context[-1] = f(self._context[-1])], an [IndexError] on an
    empty list. *)
Definition set_last_context (f : message -> message) : M W unit :=
  a ← read;
  match reverse (_context a) with
  | [] => raise (Exn IndexError (py "list index out of range"))
  | m :: before =>
    update (fun a => MkAgent (reverse before ++ [f m]) (_step_count a)
                       (_last_action_type a) (_last_action_target a)
                       (_retry_count a))
  end.

(** [self.model_client.request(self._context)]: the transport delivers
    the stream, the client reads it. *)
Definition model_request : M W Client.ModelResponse :=
  a ← read;
  stream ← call_total (open_stream (_context a));
  pure_result (fst (Client.request stream)).

Definition opt_str (o : option pystr) : pystr := py_str (pyval_of_opt o).

(** The second half of [_execute_step], lines 154 to 211: what the step
    does with the response of the model. *)
Definition act_on (screenshot : Screenshot) (response : Client.ModelResponse)
  : M W StepResult :=
  decoded ← try_except (pure_result (parse_action (Client.action response)))
              is_ValueError;
  let action :=
    match decoded with
    | inl action => action
    | inr _ => finish (PStr (Client.action response))
    end in
  set_last_context remove_images_from_message;;
  dispatched ← try_except
    (result ← call (execute action (width screenshot) (height screenshot));
     mret (action, result)) is_Exception;
  '(executed_action, result) ←
    match dispatched with
    | inl done => mret done
    | inr e =>
      let executed_action := finish (PStr (exn_text e)) in
      result ← call (execute executed_action (width screenshot) (height screenshot));
      mret (executed_action, result)
    end;
  append_context
    (create_assistant_message
       (py "<think>" ++ Client.thinking response ++ py "</think><answer>"
           ++ Client.action response ++ py "</answer>"));;
  let finished := is_finish executed_action || should_finish result in
  _update_last_action_state executed_action;;
  mret (MkStepResult (result_success result) finished (Some executed_action)
          (Client.thinking response)
          (py_or (pyval_of_opt (result_message result))
                 (get executed_action "message"))).

(** [_execute_step]. What the step writes to the console, with the
    locale messages it looks up for that, is left out: it does not reach
    the agent, the world or the result. *)
Definition _execute_step (user_prompt : option pystr) (is_first : bool)
  : M W StepResult :=
  update (fun a => MkAgent (_context a) (_step_count a + 1) (_last_action_type a)
                     (_last_action_target a) (_retry_count a));;
  screenshot ← call (get_screenshot (device_id config));
  current_app ← call (get_current_app (device_id config));
  (if is_first then
     append_context (create_system_message (system_prompt config));;
     let screen_info := build_screen_info current_app in
     let text_content := opt_str user_prompt ++ [10; 10]%N ++ screen_info in
     a ← read;
     let text_content := _compose_user_text a text_content in
     append_context
       (create_user_message text_content (Some (base64_data screenshot)))
   else
     let screen_info := build_screen_info current_app in
     let text_content := py "** Screen Info **" ++ [10; 10]%N ++ screen_info in
     a ← read;
     let text_content := _compose_user_text a text_content in
     append_context
       (create_user_message text_content (Some (base64_data screenshot))));;
  requested ← try_except model_request is_Exception;
  match requested with
  | inr e =>
    mret (MkStepResult false true None []
            (PStr (py "Model error: " ++ exn_text e)))
  | inl response => act_on screenshot response
  end.

Definition TASK_COMPLETED : pyval := PStr (py "Task completed").
Definition MAX_STEPS_REACHED : pyval := PStr (py "Max steps reached").

(** [reset], and the first three statements of [run]. *)
Definition reset : M W unit :=
  update (fun a => _reset_action_tracking
                     (MkAgent [] 0 (_last_action_type a) (_last_action_target a)
                        (_retry_count a))).

(** The [while] loop of [run]. Every iteration raises the step counter, so
    the loop ends after at most [max_steps] rounds; [fuel] bounds them, and
    [None] is the answer of a loop that was given too little. *)
Fixpoint run_loop (fuel : nat) : M W (option pyval) :=
  a ← read;
  if _step_count a <? max_steps config then
    match fuel with
    | O => mret None
    | S fuel' =>
      result ← _execute_step None false;
      if finished result
      then mret (Some (py_or (step_message result) TASK_COMPLETED))
      else run_loop fuel'
    end
  else mret (Some MAX_STEPS_REACHED).

Definition run (task : pystr) : M W (option pyval) :=
  reset;;
  result ← _execute_step (Some task) true;
  if finished result
  then mret (Some (py_or (step_message result) TASK_COMPLETED))
  else run_loop (Z.to_nat (max_steps config)).

(** [step]; [not task] holds for [None] and for the empty string. *)
Definition step (task : option pystr) : M W StepResult :=
  a ← read;
  let is_first := bool_decide (length (_context a) = 0%nat) in
  if is_first && negb (truthy (pyval_of_opt task))
  then raise (Exn ValueError (py "Task is required for the first step"))
  else _execute_step task is_first.

End Agent.

#[global] Arguments finish : simpl never.
#[global] Arguments is_finish : simpl never.
#[global] Arguments is_do : simpl never.
#[global] Arguments get : simpl never.
#[global] Arguments py_or : simpl never.
#[global] Arguments _format_action_target : simpl never.
#[global] Arguments _compose_user_text : simpl never.
#[global] Arguments _build_retry_note : simpl never.
#[global] Arguments create_user_message : simpl never.
#[global] Arguments create_system_message : simpl never.
#[global] Arguments create_assistant_message : simpl never.
#[global] Arguments remove_images_from_message : simpl never.
#[global] Arguments build_screen_info : simpl never.
#[global] Arguments opt_str : simpl never.
#[global] Arguments action_type_of : simpl never.
#[global] Arguments act_on : simpl never.

(** ** Notions of the specification *)

Module Spec.

(** [sep] occurs somewhere in [text]. *)
Definition occurs (sep text : pystr) : Prop :=
  exists pre post, text = pre ++ sep ++ post.

(** [text] is [pre], then [sep], then [post], and this is the first place
    where [sep] occurs. *)
Definition first_split (sep text pre post : pystr) : Prop :=
  text = pre ++ sep ++ post /\
  forall pre' post', text = pre' ++ sep ++ post' ->
    (length pre <= length pre')%nat.

(** The substring of [text] enclosed between the opening tag [a] and the
    closing tag [b]: what stands between the first [a] and the first [b]
    after it, or everything after [a] when no [b] follows. *)
Inductive enclosed (a b text : pystr) : pystr -> Prop :=
  | enclosed_closed pre rest v post :
      first_split a text pre rest ->
      first_split b rest v post ->
      enclosed a b text v
  | enclosed_open pre rest :
      first_split a text pre rest ->
      ~ occurs b rest ->
      enclosed a b text rest.

(** The content of a chunk, when the loop of [request] takes one from it. *)
Definition chunk_content (ch : Client.chunk) : option pystr :=
  match Client.choices ch with
  | Some content :: _ => Some content
  | _ => None
  end.

(** The final concatenated text of a stream. *)
Definition concat_contents (chunks : list Client.chunk) : pystr :=
  concat (omap chunk_content chunks).

(** A marker occurs in [t]. *)
Definition holds_marker (t : pystr) : Prop :=
  exists m, m ∈ Client.action_markers /\ occurs m t.

(** [t] ends with the beginning of a marker: a suffix of [t] is a
    non-empty strict prefix [p] of a marker [p ++ q]. *)
Definition ends_in_partial_marker (t : pystr) : Prop :=
  exists m p q r, m ∈ Client.action_markers /\
    m = p ++ q /\ p <> [] /\ q <> [] /\ t = r ++ p.

(** An occurrence of a marker lies across the boundary between [before]
    and [after]: it begins in the first and ends in the second. *)
Definition cuts_marker (before after : pystr) : Prop :=
  exists m p q r u, m ∈ Client.action_markers /\
    m = p ++ q /\ p <> [] /\ q <> [] /\ before = r ++ p /\ after = q ++ u.

(** What the preview prints for a sequence of raw segments that are
    cleaned one after the other, and the tag state it ends in. *)
Fixpoint preview_of (tg : Client.tag_state) (segs : list pystr)
  : list pystr * Client.tag_state :=
  match segs with
  | [] => ([], tg)
  | seg :: rest =>
    let '(text, tg1) := Client._clean_stream_content seg tg in
    let '(prints, tg2) := preview_of tg1 rest in
    (Client.print_nonempty text ++ prints, tg2)
  end.

(** The relation between the state of the stream loop, what it has
    printed so far and the raw text it has received: the printed pieces
    are the cleaning of raw segments [segs] that make up the beginning of
    the text; no segment ends in the beginning of a marker; before a
    marker is detected the segments hold no marker and are followed by
    the buffer, which holds none either; after, they are followed by a
    marker. *)
Definition preview_inv (st : Client.stream_state) (out : list pystr) : Prop :=
  exists segs rest,
    Client.raw_content st = concat segs ++ rest /\
    Client.tags st = snd (preview_of (Client.tags Client.stream_init) segs) /\
    out = fst (preview_of (Client.tags Client.stream_init) segs)
          ++ (if Client.in_action_phase st then [Client.NEWLINE] else []) /\
    (forall s1 s2, segs = s1 ++ s2 -> s2 <> [] ->
       ~ ends_in_partial_marker (concat s1)) /\
    (if Client.in_action_phase st
     then exists m post, m ∈ Client.action_markers /\ rest = m ++ post
     else rest = Client.buffer st /\
          ~ holds_marker (concat segs) /\
          ~ ends_in_partial_marker (concat segs) /\
          ~ holds_marker (Client.buffer st)).

(** The tracker fed with a sequence of actions, one update each. *)
Fixpoint feed {W} `{Collaborators W} (acts : list pydict) : M W unit :=
  match acts with
  | [] => mret tt
  | act :: rest => _update_last_action_state act;; feed rest
  end.

(** The operations on the retry tracker. *)
Inductive tracker_op :=
  | Update (act : pydict)
  | Reset.

Definition apply_op {W} `{Collaborators W} (op : tracker_op) : M W unit :=
  match op with
  | Update act => _update_last_action_state act
  | Reset => update _reset_action_tracking
  end.

(** The state after a sequence of operations; an update that raises
    leaves the tracker as it was. *)
Fixpoint run_ops {W} `{Collaborators W} (ops : list tracker_op) (s : agent * W)
  : agent * W :=
  match ops with
  | [] => s
  | op :: rest => run_ops rest (snd (apply_op op s))
  end.

(** The actions classified since the last reset, the oldest first; [seen]
    holds those classified before [ops]. *)
Fixpoint classified {W} `{Collaborators W} (ops : list tracker_op)
  (seen : list pydict) : list pydict :=
  match ops with
  | [] => seen
  | Reset :: rest => classified rest []
  | Update act :: rest =>
    classified rest
      (if is_Ok (_format_action_target act) then seen ++ [act] else seen)
  end.

(** The retry note without the escalation clause. *)
Definition base_note {W} `{Collaborators W} (a : agent) : pystr :=
  py "已尝试 " ++ py_str (_last_action_type a)
     ++ (if truthy (_last_action_target a)
         then py " " ++ py_str (_last_action_target a) else [])
     ++ py " 共 " ++ str_of_int (_retry_count a)
     ++ py " 次，界面未变化/状态仍未达成".

(** The text of the user turn of a step. *)
Definition user_text {W} `{Collaborators W} (config : AgentConfig)
  (user_prompt : option pystr) (is_first : bool) (a : agent) (app : pystr)
  : pystr :=
  _compose_user_text config a
    (if is_first
     then opt_str user_prompt ++ [10; 10]%N ++ build_screen_info app
     else py "** Screen Info **" ++ [10; 10]%N ++ build_screen_info app).

(** The context that a step sends to the model, and the agent at that
    moment. *)
Definition sent_context {W} `{Collaborators W} (config : AgentConfig)
  (user_prompt : option pystr) (is_first : bool) (a : agent)
  (shot : Screenshot) (app : pystr) : list message :=
  (if is_first
   then _context a ++ [create_system_message (system_prompt config)]
   else _context a)
    ++ [create_user_message (user_text config user_prompt is_first a app)
          (Some (base64_data shot))].

Definition turn_agent {W} `{Collaborators W} (config : AgentConfig)
  (user_prompt : option pystr) (is_first : bool) (a : agent)
  (shot : Screenshot) (app : pystr) : agent :=
  MkAgent (sent_context config user_prompt is_first a shot app)
    (_step_count a + 1) (_last_action_type a) (_last_action_target a)
    (_retry_count a).

(** The terminal result of a step whose request failed. *)
Definition model_error_result (e : exn) : StepResult :=
  MkStepResult false true None [] (PStr (py "Model error: " ++ exn_text e)).

(** The result of a step that dispatched [executed] and got [result]. *)
Definition step_result (response : Client.ModelResponse) (executed : pydict)
  (result : ActionResult) : StepResult :=
  MkStepResult (result_success result)
    (is_finish executed || should_finish result) (Some executed)
    (Client.thinking response)
    (py_or (pyval_of_opt (result_message result)) (get executed "message")).

(** The outcome of the last part of a step, the update of the tracker. *)
Definition conclude {W} `{Collaborators W} (response : Client.ModelResponse)
  (executed : pydict) (result : ActionResult) : pyresult StepResult :=
  match _format_action_target executed with
  | Ok _ => Ok (step_result response executed result)
  | Raise e => Raise e
  end.

(** What the dispatch of [act] leads to, from the world [w]: the result of
    the step when the executor returns, at once or for the finish action
    that replaces an action on which it raised. *)
Definition dispatch_outcome {W} `{Collaborators W} (shot : Screenshot)
  (response : Client.ModelResponse) (act : pydict) (w : W)
  : pyresult StepResult :=
  match execute act (width shot) (height shot) w with
  | (Ok result, _) => conclude response act result
  | (Raise e, w') =>
    if is_Exception e then
      match execute (finish (PStr (exn_text e))) (width shot) (height shot) w' with
      | (Ok result, _) => conclude response (finish (PStr (exn_text e))) result
      | (Raise e', _) => Raise e'
      end
    else Raise e
  end.

(** A computation that leaves the step counter as it is, whether it
    returns or raises. *)
Definition keeps_count {W A} (m : M W A) : Prop :=
  forall s, _step_count (fst (snd (m s))) = _step_count (fst s).


End Spec.

(** ** Concrete inputs used in the examples below *)

Module Examples.

Import Client.

(** A reply in the tagged format, cut inside the closing think tag. *)
Definition tagged_chunks : list chunk :=
  [Chunk [Some (py "<think_text> open  the app </think")];
   Chunk [];
   Chunk [Some (py "_text>< tool_call > do(action=Tap) </tool_call>")]].

(** A reply in the tagged format whose thinking is padded with blanks. *)
Definition padded_reply : pystr :=
  py "<think_text> a </think_text><tool_call>b</tool_call>".

(** Replies in the legacy format. *)
Definition legacy_both : pystr := py " hi do(action=x) finish(message=y)".
Definition legacy_do : pystr := py "tap it do(action=Tap)".
Definition legacy_none : pystr := py " x".

(** The fragment that ends inside a marker, and the states of the loop
    before it arrives and once the marker is complete. *)
Definition split_fragment : pystr := py "tap <b>OK</b> do(acti".
Definition state_before_split : stream_state :=
  fst (request_loop stream_init [Chunk [Some (py "I will ")]]).
Definition state_after_marker : stream_state :=
  fst (request_loop stream_init
         [Chunk [Some (py "I will ")]; Chunk [Some split_fragment];
          Chunk [Some (py "on=Tap) and")]]).

(** A stream whose second fragment ends inside a marker, which the third
    completes. *)
Definition split_marker_chunks : list chunk :=
  [Chunk [Some (py "I will ")];
   Chunk [Some (py "tap <b>OK</b> do(acti")];
   Chunk [Some (py "on=Tap) and")];
   Chunk [Some (py " more")]].

(** A scripted environment: what each collaborator answers, whatever the
    state of the world; the world counts the requests sent to the model. *)
Record script := {
  on_screenshot : pyresult Screenshot;
  on_app : pyresult pystr;
  on_stream : stream_outcome;
  on_decode : pystr -> pyresult pydict;
  on_execute : pydict -> pyresult ActionResult
}.

Definition scripted (sc : script) : Collaborators nat := {|
  get_screenshot := fun _ w => (on_screenshot sc, w);
  get_current_app := fun _ w => (on_app sc, w);
  open_stream := fun _ w => (on_stream sc, S w);
  parse_action := on_decode sc;
  execute := fun act _ _ w => (on_execute sc act, w);
  repr_list := fun _ => py "[...]"
|}.

Definition default_config : AgentConfig :=
  AgentConfig_default (py "You are a phone agent.").

Definition with_max_steps (n : Z) : AgentConfig := {|
  max_steps := n;
  device_id := None;
  lang := py "cn";
  system_prompt := py "You are a phone agent.";
  verbose := true;
  retry_reminder_threshold := 3
|}.

(** A task. *)
Definition task : pystr := py "open settings".

(** The agent as [__init__] leaves it. *)
Definition new_agent : agent := MkAgent [] 0 PNone PNone 0.

Definition screen : Screenshot :=
  {| base64_data := py "iVBORw0KGgo="; width := 1080; height := 2400 |}.

Definition tap_action : pydict :=
  <["_metadata" := PStr (py "do")]>
    (<["action" := PStr (py "Tap")]>
       (<["element" := PList [PInt 100; PInt 200]]> ∅)).

(** A [do] action whose name is the empty string. *)
Definition nameless_action : pydict :=
  <["_metadata" := PStr (py "do")]> (<["action" := PStr []]> ∅).

Definition tap_reply : stream_outcome :=
  ([Chunk [Some (py "tap the button do(action=Tap, element=[100,200])")]], None).

Definition tapped : ActionResult :=
  {| result_success := true; should_finish := false; result_message := None |}.

(** The model always asks for the same tap and the executor performs it. *)
Definition tap_forever : script := {|
  on_screenshot := Ok screen;
  on_app := Ok (py "Home");
  on_stream := tap_reply;
  on_decode := fun _ => Ok tap_action;
  on_execute := fun _ => Ok tapped
|}.

(** What the model says in that script, as the client parses it. *)
Definition tap_response : ModelResponse :=
  MkModelResponse (py "tap the button") (py "do(action=Tap, element=[100,200])")
    (py "tap the button do(action=Tap, element=[100,200])").

(** The device cannot be reached. *)
Definition no_device : exn := Exn RuntimeError (py "adb: no devices found").
Definition broken_device : script := {|
  on_screenshot := Raise no_device;
  on_app := Ok (py "Home");
  on_stream := tap_reply;
  on_decode := fun _ => Ok tap_action;
  on_execute := fun _ => Ok tapped
|}.

(** The model cannot be reached. *)
Definition connection_error : exn := Exn RuntimeError (py "Connection error.").
Definition model_down : script := {|
  on_screenshot := Ok screen;
  on_app := Ok (py "Home");
  on_stream := ([], Some connection_error);
  on_decode := fun _ => Ok tap_action;
  on_execute := fun _ => Ok tapped
|}.

(** The model answers with a text that the decoder rejects. *)
Definition garbled_text : pystr := py "press the big red button".
Definition garbled_reply : stream_outcome :=
  ([Chunk [Some (py "press the big ")]; Chunk [Some (py "red button")]], None).
Definition garbled_response : ModelResponse :=
  MkModelResponse [] garbled_text garbled_text.
Definition decode_error : exn := Exn ValueError (py "Failed to parse action").
Definition finish_done : ActionResult :=
  {| result_success := true; should_finish := true; result_message := None |}.
Definition garbled : script := {|
  on_screenshot := Ok screen;
  on_app := Ok (py "Home");
  on_stream := garbled_reply;
  on_decode := fun _ => Raise decode_error;
  on_execute := fun _ => Ok finish_done
|}.

(** The same, with an executor that raises on the finish action made
    from the rejected text, and on no other action. *)
Definition device_offline : exn := Exn RuntimeError (py "device offline").
Definition garbled_offline : script := {|
  on_screenshot := Ok screen;
  on_app := Ok (py "Home");
  on_stream := garbled_reply;
  on_decode := fun _ => Raise decode_error;
  on_execute := fun act =>
    if py_eq (get act "message") (PStr garbled_text)
    then Raise device_offline else Ok finish_done
|}.

(** The executor raises on every action but a finish action. *)
Definition tap_offline : script := {|
  on_screenshot := Ok screen;
  on_app := Ok (py "Home");
  on_stream := tap_reply;
  on_decode := fun _ => Ok tap_action;
  on_execute := fun act =>
    if is_finish act then Ok finish_done else Raise device_offline
|}.

(** The executor raises on every action. *)
Definition always_offline : script := {|
  on_screenshot := Ok screen;
  on_app := Ok (py "Home");
  on_stream := tap_reply;
  on_decode := fun _ => Ok tap_action;
  on_execute := fun _ => Raise device_offline
|}.

(** An agent in the middle of a task: the state after one step of
    [tap_forever]. *)
Definition agent_after_tap : agent * nat :=
  snd (@_execute_step nat (scripted tap_forever) default_config
         (Some (py "open settings")) true (new_agent, 0%nat)).

End Examples.

(** ** Further notions used by the properties below *)

Module Props.

(** [s] holds whitespace only as single blanks: every whitespace character
    of [s] is a blank and no two stand side by side; [in_run] tells that a
    whitespace character stands just before [s]. *)
Fixpoint single_blanks (in_run : bool) (s : pystr) : bool :=
  match s with
  | [] => true
  | c :: t =>
    if isspace c then (c =? 32)%N && negb in_run && single_blanks true t
    else single_blanks false t
  end.

(** The message carries an image. *)
Definition has_image (m : message) : bool :=
  match content m with
  | ContentList items => existsb (fun item => negb (is_text item)) items
  | ContentStr _ => false
  end.

(** No message of the context carries an image. *)
Definition image_free (ctx : list message) : bool :=
  forallb (fun m => negb (has_image m)) ctx.

(** The assistant turn that a step records for a response of the model. *)
Definition answer_message (response : Client.ModelResponse) : message :=
  create_assistant_message
    (py "<think>" ++ Client.thinking response ++ py "</think><answer>"
        ++ Client.action response ++ py "</answer>").

(** The agent once the step counter is raised. *)
Definition counted (a : agent) : agent :=
  MkAgent (_context a) (_step_count a + 1) (_last_action_type a)
    (_last_action_target a) (_retry_count a).

(** The context a step starts from, with the system turn when the step
    is the first. *)
Definition opened_context (config : AgentConfig) (is_first : bool) (a : agent)
  : list message :=
  if is_first
  then _context a ++ [create_system_message (system_prompt config)]
  else _context a.

Section Drive.

Context {W : Type} `{Collaborators W} (config : AgentConfig).

(** A caller that drives the agent through [step] the way [run] drives
    it through [_execute_step]: [reset()], [step(task)], then [step()]
    until a step reports the end or the counter reaches the ceiling. *)
Fixpoint drive_loop (fuel : nat) : M W (option pyval) :=
  a ← read;
  if _step_count a <? max_steps config then
    match fuel with
    | O => mret None
    | S fuel' =>
      result ← step config None;
      if finished result
      then mret (Some (py_or (step_message result) TASK_COMPLETED))
      else drive_loop fuel'
    end
  else mret (Some MAX_STEPS_REACHED).

Definition drive (task : pystr) : M W (option pyval) :=
  reset;;
  result ← step config (Some task);
  if finished result
  then mret (Some (py_or (step_message result) TASK_COMPLETED))
  else drive_loop (Z.to_nat (max_steps config)).

End Drive.

End Props.

(** ** test.py: the settings file *)

Module Env.

Definition QUOTE : char := 34%N.
Definition APOSTROPHE : char := 39%N.
Definition BACKSLASH : char := 92%N.

(** [s.replace(old, new)] for a one-character [old]. *)
Definition replace_char (old : char) (new s : pystr) : pystr :=
  concat (map (fun c => if (c =? old)%N then new else [c]) s).

(** [v[0] == v[-1] == q] *)
Definition quoted_by (q : char) (v : pystr) : bool :=
  match head v, last v with
  | Some c, Some d => (c =? d)%N && (d =? q)%N
  | _, _ => false
  end.

Definition _strip_quotes (v : pystr) : pystr :=
  let v := strip v in
  if (2 <=? Z.of_nat (length v)) && (quoted_by QUOTE v || quoted_by APOSTROPHE v)
  then slice v 1 (-1)
  else v.

Definition _quote_env_value (v : pystr) : pystr :=
  let v := replace_char QUOTE [BACKSLASH; QUOTE]
             (replace_char BACKSLASH [BACKSLASH; BACKSLASH] v) in
  [QUOTE] ++ v ++ [QUOTE].

(** [k, v = parts] on the result of [split]: a [ValueError] when the list
    has one part only. *)
Definition unpack2 (parts : pystr * option pystr) : pyresult (pystr * pystr) :=
  match parts with
  | (k, Some v) => Ok (k, v)
  | (_, None) =>
    Raise (Exn ValueError (py "not enough values to unpack (expected 2, got 1)"))
  end.

(** The lines that both loops pass over: blank, comment, or without [=]. *)
Definition skipped (line : pystr) : bool :=
  match line with
  | [] => true
  | _ => startswith (py "#") line || negb (contains (py "=") line)
  end.

(** The body of the loop of [read_env_file]. *)
Definition read_line (data : gmap pystr pystr) (raw : pystr)
  : pyresult (gmap pystr pystr) :=
  let line := strip raw in
  if skipped line then Ok data
  else
    rbind (unpack2 (split1 line (py "="))) (fun '(k, v) =>
    let k := strip k in
    let v := _strip_quotes (strip v) in
    Ok (<[k := v]> data)).

Fixpoint read_lines (lines : list pystr) (data : gmap pystr pystr)
  : pyresult (gmap pystr pystr) :=
  match lines with
  | [] => Ok data
  | raw :: rest => rbind (read_line data raw) (read_lines rest)
  end.


(** The first loop of [write_env_file_update]: the index of the last line
    that sets each key. *)
Definition index_line (idx : gmap pystr nat) (i : nat) (raw : pystr)
  : gmap pystr nat :=
  let line := strip raw in
  if skipped line then idx
  else
    match strip (fst (split1 line (py "="))) with
    | [] => idx
    | k => <[k := i]> idx
    end.

Fixpoint build_index (lines : list pystr) (i : nat) (idx : gmap pystr nat)
  : gmap pystr nat :=
  match lines with
  | [] => idx
  | raw :: rest => build_index rest (S i) (index_line idx i raw)
  end.

(** The line written for a key. *)
Definition env_line (k v : pystr) : pystr := k ++ py "=" ++ _quote_env_value v.

(** The second loop: the updates, in the order of the dictionary. *)
Fixpoint apply_updates (idx : gmap pystr nat) (updates : list (pystr * pystr))
  (lines : list pystr) : list pystr :=
  match updates with
  | [] => lines
  | (k, v) :: rest =>
    apply_updates idx rest
      match idx !! k with
      | Some i => <[i := env_line k v]> lines
      | None => lines ++ [env_line k v]
      end
  end.

Definition HEADER : list pystr :=
  [py "# AutoGLM / PhoneAgent settings";
   py "# Values are quoted automatically.";
   []].

(** The lines that [write_env_file_update] starts from. *)
Definition existing_lines (file : option (pyresult (list pystr)))
  : pyresult (list pystr) :=
  match file with
  | None => Ok []
  | Some (Ok lines) => Ok lines
  | Some (Raise e) => if is_Exception e then Ok [] else Raise e
  end.

(** [write_env_file_update]: the lines it writes, each followed by a line
    feed in the file. *)
Definition write_env_file_update (file : option (pyresult (list pystr)))
  (updates : list (pystr * pystr)) : pyresult (list pystr) :=
  rbind (existing_lines file) (fun existing =>
  let lines := apply_updates (build_index existing 0 ∅) updates existing in
  Ok match file, lines with
     | None, _ :: _ => HEADER ++ lines
     | _, _ => lines
     end).

(** A value as it comes back from the file: the escapes that
    [_quote_env_value] adds are not removed. *)
Definition escaped (v : pystr) : pystr :=
  replace_char QUOTE [BACKSLASH; QUOTE]
    (replace_char BACKSLASH [BACKSLASH; BACKSLASH] v).



Definition KEY_API_KEY : pystr := py "PHONEAGENT_API_KEY".
Definition KEY_MODEL_NAME : pystr := py "PHONEAGENT_MODEL_NAME".








End Env.

(** ** Further inputs used in the examples below *)

Module Scenarios.

Import Client Examples.

(** A [Type] action whose text is a number, and one whose text is a
    string. *)
Definition type_number_action : pydict :=
  <["_metadata" := PStr (py "do")]>
    (<["action" := PStr (py "Type")]> (<["text" := PInt 5]> ∅)).

Definition type_hello_action : pydict :=
  <["_metadata" := PStr (py "do")]>
    (<["action" := PStr (py "Type")]> (<["text" := PStr (py "hello")]> ∅)).

(** The decoder answers with the action that types a number. *)
Definition typing_number : script := {|
  on_screenshot := Ok screen;
  on_app := Ok (py "Home");
  on_stream := tap_reply;
  on_decode := fun _ => Ok type_number_action;
  on_execute := fun _ => Ok tapped
|}.

(** A configuration whose reminder threshold is zero. *)
Definition no_reminder_config : AgentConfig := {|
  max_steps := 100;
  device_id := None;
  lang := py "cn";
  system_prompt := py "You are a phone agent.";
  verbose := true;
  retry_reminder_threshold := 0
|}.

(** An agent that has tapped the same point five times. *)
Definition stuck_agent : agent :=
  MkAgent [] 5 (PStr (py "Tap")) (PStr (py "(100, 200)")) 5.


Definition old_file : list pystr :=
  [py "# settings"; py "PHONEAGENT_API_KEY = 'old'"; py "OTHER=1"].

End Scenarios.

(* ================================================================== *)
(** * Properties *)

Example py_ascii : py "<a>" = [60; 97; 62]%N.
Proof. reflexivity. Qed.

Example py_cjk : py "已尝试" = [24050; 23581; 35797]%N.
Proof. reflexivity. Qed.

Example find_ex : find (py "abcabc") (py "ca") = 2.
Proof. reflexivity. Qed.

Example split_ex : split1 (py "a--b--c") (py "--") = (py "a", Some (py "b--c")).
Proof. reflexivity. Qed.

Example strip_ex : strip (py "  a b  ") = py "a b".
Proof. reflexivity. Qed.

Example sub_ws_ex : sub_ws (py " ") (py "a  b
 c") = py "a b c".
Proof. reflexivity. Qed.

Example str_of_int_ex : str_of_int 120 = py "120" /\ str_of_int (-7) = py "-7".
Proof. split; reflexivity. Qed.

Example normalize_ex :
  Client._normalize_xmlish_tags (py "a < tool_call >b</ tool_call > <> < x") =
  py "a <tool_call>b</tool_call> <> < x".
Proof. vm_compute. reflexivity. Qed.

Example parse_ex1 :
  Client._parse_response (py "<think_text> a  b </think_text>< tool_call > do(x) </tool_call>")
  = Ok (py "a b", py "do(x)").
Proof. vm_compute. reflexivity. Qed.

Example parse_ex2 :
  Client._parse_response (py " hi do(action=x) finish(message=y)")
  = Ok (py "hi do(action=x)", py "finish(message=y)").
Proof. vm_compute. reflexivity. Qed.

Example request_ex :
  Client.request ([Client.Chunk [Some (py "I will do(acti")]; Client.Chunk [];
                   Client.Chunk [Some (py "on=Tap)")]], None)
  = (Ok (Client.MkModelResponse (py "I will") (py "do(action=Tap)") (py "I will do(action=Tap)")),
     [py "I will"; Client.NEWLINE]).
Proof. vm_compute. reflexivity. Qed.

Example preview_split_marker :
  Client.request (Examples.split_marker_chunks, None) =
  (Ok (Client.MkModelResponse (py "I will tap <b>OK</b>") (py "do(action=Tap) and more")
         (py "I will tap <b>OK</b> do(action=Tap) and more")),
   [py "I will"; py "tap OK"; Client.NEWLINE]).
Proof. vm_compute. reflexivity. Qed.

Example format_target_tap :
  @_format_action_target nat (Examples.scripted Examples.tap_forever) Examples.tap_action
  = Ok (PStr (py "(100, 200)")).
Proof. vm_compute. reflexivity. Qed.

Example screen_info_ex :
  build_screen_info (py "Home") = py "{" ++ [34%N] ++ py "current_app" ++ [34%N]
     ++ py ": " ++ [34%N] ++ py "Home" ++ [34%N] ++ py "}".
Proof. vm_compute. reflexivity. Qed.

Example step_ex :
  @_execute_step nat (Examples.scripted Examples.tap_forever) Examples.default_config
    (Some (py "open settings")) true (Examples.new_agent, 0%nat)
  = (Ok (MkStepResult true false (Some Examples.tap_action) (py "tap the button") PNone),
     (MkAgent
        [create_system_message (py "You are a phone agent.");
         Message (py "user")
           (ContentList [TextItem (py "open settings" ++ [10; 10]%N
                                      ++ build_screen_info (py "Home"))]);
         create_assistant_message
           (py "<think>tap the button</think><answer>do(action=Tap, element=[100,200])</answer>")]
        1 (PStr (py "Tap")) (PStr (py "(100, 200)")) 1, 1%nat)).
Proof. vm_compute. reflexivity. Qed.

Example user_message_ex :
  create_user_message (py "hello") (Some (py "QUJD")) =
  Message (py "user")
    (ContentList [ImageUrl (py "data:image/png;base64,QUJD"); TextItem (py "hello")]) /\
  remove_images_from_message (create_user_message (py "hello") (Some (py "QUJD"))) =
  Message (py "user") (ContentList [TextItem (py "hello")]).
Proof. split; vm_compute; reflexivity. Qed.

Example compose_user_text_ex :
  @_compose_user_text nat (Examples.scripted Examples.tap_forever)
    Examples.default_config
    (MkAgent [] 1 (PStr (py "Tap")) (PStr (py "(100, 200)")) 1) (py "screen") =
  py "已尝试 Tap (100, 200) 共 1 次，界面未变化/状态仍未达成" ++ [10; 10]%N ++ py "screen".
Proof. vm_compute. reflexivity. Qed.

Example format_target_type :
  @_format_action_target nat (Examples.scripted Examples.tap_forever)
    (<["_metadata" := PStr (py "do")]>
       (<["action" := PStr (py "Type")]>
          (<["text" := PStr (py "0123456789012345678901234567890123456789012345678901234")]> ∅)))
  = Ok (PStr (py "text='01234567890123456789012345678901234567890123456...'")).
Proof. vm_compute. reflexivity. Qed.

Example format_target_unhashable :
  @_format_action_target nat (Examples.scripted Examples.tap_forever)
    (<["_metadata" := PStr (py "do")]> (<["action" := PList []]> ∅))
  = Raise (Exn TypeError (py "unhashable type: 'list'")).
Proof. vm_compute. reflexivity. Qed.

(** ** Facts about Python strings *)

Section StringFacts.

Implicit Types (s t p a text pre post : pystr).

Lemma startswith_app p r : startswith p (p ++ r) = true.
Proof.
  induction p as [|c p IH]; simpl; [done|].
  by rewrite N.eqb_refl, IH.
Qed.

Lemma startswith_spec p s : startswith p s = true <-> exists r, s = p ++ r.
Proof.
  split.
  - revert s. induction p as [|c p IH]; intros s H.
    + by exists s.
    + destruct s as [|d s]; simpl in H; [done|].
      apply andb_true_iff in H as [Hc Hp].
      apply N.eqb_eq in Hc as ->.
      destruct (IH _ Hp) as [r ->]. by exists r.
  - intros [r ->]. apply startswith_app.
Qed.

Lemma startswith_false p s :
  startswith p s = false -> forall r, s <> p ++ r.
Proof.
  intros H r ->. by rewrite startswith_app in H.
Qed.

Lemma endswith_spec s p : endswith s p = true <-> exists r, s = r ++ p.
Proof.
  unfold endswith. rewrite startswith_spec. split.
  - intros [r H]. exists (rev r).
    apply (f_equal (@rev N)) in H.
    by rewrite rev_involutive, rev_app_distr, rev_involutive in H.
  - intros [r ->]. exists (rev r). by rewrite rev_app_distr.
Qed.

(** [find_aux] returns the position of the first occurrence, counted from
    [i], or [-1]. *)
Lemma find_aux_found a text i :
  0 <= i ->
  find_aux a text i <> -1 ->
  exists pre post,
    Spec.first_split a text pre post /\
    find_aux a text i = i + Z.of_nat (length pre).
Proof.
  revert i. induction text as [|c text IH]; intros i Hi H; simpl in *.
  - destruct (startswith a []) eqn:E; [|done].
    apply startswith_spec in E as [r E].
    exists [], r. split; [|simpl; lia].
    split; [done|]. intros; simpl; lia.
  - destruct (startswith a (c :: text)) eqn:E.
    + apply startswith_spec in E as [r E].
      exists [], r. split; [|simpl; lia].
      split; [done|]. intros; simpl; lia.
    + destruct (IH (i + 1)) as (pre & post & [Heq Hmin] & Hf); [lia|done|].
      exists (c :: pre), post. split; [|rewrite Hf; simpl; lia].
      split; [by rewrite Heq|].
      intros pre' post' Heq'. destruct pre' as [|d pre'].
      * exfalso. by eapply startswith_false.
      * simpl in *. injection Heq' as -> Heq'.
        specialize (Hmin _ _ Heq'). lia.
Qed.

Lemma find_aux_none a text i :
  find_aux a text i = -1 -> 0 <= i -> ~ Spec.occurs a text.
Proof.
  revert i. induction text as [|c text IH]; intros i H Hi (pre & post & Heq);
    simpl in H.
  - destruct (startswith a []) eqn:E; [lia|].
    destruct pre; [|done]. by eapply startswith_false.
  - destruct (startswith a (c :: text)) eqn:E; [lia|].
    destruct pre as [|d pre]; [by eapply startswith_false|].
    injection Heq as -> Heq.
    apply (IH (i + 1)); [done|lia|]. by exists pre, post.
Qed.

Lemma first_split_unique sep text pre post pre' post' :
  Spec.first_split sep text pre post ->
  Spec.first_split sep text pre' post' ->
  pre = pre' /\ post = post'.
Proof.
  intros [H1 M1] [H2 M2].
  pose proof (M1 _ _ H2). pose proof (M2 _ _ H1).
  assert (length pre = length pre') as Hlen by lia.
  rewrite H1 in H2.
  apply app_inj_1 in H2 as [-> H2]; [|done].
  by apply app_inv_head in H2 as ->.
Qed.

Lemma contains_occurs a text : contains a text = true <-> Spec.occurs a text.
Proof.
  unfold contains, find. split.
  - intros H. apply negb_true_iff, Z.eqb_neq in H.
    destruct (find_aux_found a text 0) as (pre & post & [Heq _] & _); [lia|done|].
    by exists pre, post.
  - intros Hocc. apply negb_true_iff, Z.eqb_neq. intros H.
    by eapply find_aux_none.
Qed.

Lemma contains_false a text : contains a text = false <-> ~ Spec.occurs a text.
Proof.
  rewrite <- contains_occurs. by destruct (contains a text).
Qed.

Lemma find_first_split sep text pre post :
  Spec.first_split sep text pre post -> find text sep = Z.of_nat (length pre).
Proof.
  intros Hfs. unfold find.
  destruct (Z.eq_dec (find_aux sep text 0) (-1)) as [E|E].
  - exfalso. eapply find_aux_none; [done|lia|].
    destruct Hfs as [-> _]. by eexists _, _.
  - destruct (find_aux_found sep text 0) as (pre' & post' & Hfs' & ->); [lia|done|].
    destruct (first_split_unique _ _ _ _ _ _ Hfs Hfs') as [-> _]. lia.
Qed.

Lemma occurs_first_split sep text :
  Spec.occurs sep text -> exists pre post, Spec.first_split sep text pre post.
Proof.
  intros H. apply contains_occurs in H.
  unfold contains, find in H. apply negb_true_iff, Z.eqb_neq in H.
  destruct (find_aux_found sep text 0) as (pre & post & Hfs & _); [lia|done|].
  by exists pre, post.
Qed.

Lemma slice_index_nonneg n i :
  0 <= i <= Z.of_nat n -> slice_index n i = Z.to_nat i.
Proof.
  intros H. unfold slice_index.
  destruct (Z.ltb_spec i 0); [lia|]. f_equal. lia.
Qed.

Lemma slice_to_app pre post : slice_to (pre ++ post) (Z.of_nat (length pre)) = pre.
Proof.
  unfold slice_to. rewrite slice_index_nonneg.
  - rewrite Nat2Z.id. by rewrite take_app_length.
  - rewrite length_app. lia.
Qed.

Lemma slice_from_app pre post :
  slice_from (pre ++ post) (Z.of_nat (length pre)) = post.
Proof.
  unfold slice_from. rewrite slice_index_nonneg.
  - rewrite Nat2Z.id. by rewrite drop_app_length.
  - rewrite length_app. lia.
Qed.

Lemma slice_app pre v post :
  slice (pre ++ v ++ post) (Z.of_nat (length pre))
        (Z.of_nat (length pre) + Z.of_nat (length v)) = v.
Proof.
  unfold slice. rewrite !slice_index_nonneg by (rewrite !length_app; lia).
  rewrite Nat2Z.id, drop_app_length.
  replace (Z.to_nat (Z.of_nat (length pre) + Z.of_nat (length v)) - length pre)%nat
    with (length v) by lia.
  by rewrite take_app_length.
Qed.

(** [split] cuts at the first occurrence of the separator. *)
Lemma split1_first_split sep text pre post :
  Spec.first_split sep text pre post -> split1 text sep = (pre, Some post).
Proof.
  intros Hfs. unfold split1. rewrite (find_first_split _ _ _ _ Hfs).
  destruct Hfs as [-> _].
  destruct (Z.eqb_spec (Z.of_nat (length pre)) (-1)); [lia|].
  rewrite slice_to_app. f_equal. f_equal.
  rewrite <- Nat2Z.inj_add, <- length_app, app_assoc.
  apply slice_from_app.
Qed.

Lemma split1_absent sep text :
  ~ Spec.occurs sep text -> split1 text sep = (text, None).
Proof.
  intros H. apply contains_false in H. unfold contains in H.
  apply negb_false_iff in H. unfold split1. by rewrite H.
Qed.

End StringFacts.

(** ** The response parser *)

Section ParserFacts.

Import Client.

Lemma find_from_app (pre rest b : pystr) :
  find_from (pre ++ rest) b (Z.of_nat (length pre)) =
  find_aux b rest (Z.of_nat (length pre)).
Proof.
  unfold find_from. rewrite length_app.
  destruct (Z.ltb_spec (Z.of_nat (length pre + length rest)) (Z.of_nat (length pre)));
    [lia|].
  rewrite slice_index_nonneg by lia.
  by rewrite Nat2Z.id, drop_app_length.
Qed.

(** [_extract_between] computes the enclosed substring of the
    specification whenever the opening tag occurs. *)
Lemma extract_between_enclosed (a b text : pystr) :
  Spec.occurs a text -> Spec.enclosed a b text (_extract_between text a b).
Proof.
  intros Hocc. destruct (occurs_first_split _ _ Hocc) as (pre & rest & Hfs).
  unfold _extract_between. rewrite (find_first_split _ _ _ _ Hfs).
  destruct (Z.eqb_spec (Z.of_nat (length pre)) (-1)); [lia|].
  pose proof Hfs as [Htext _].
  rewrite app_assoc in Htext.
  rewrite <- Nat2Z.inj_add, <- length_app.
  replace (find_from text b (Z.of_nat (length (pre ++ a))))
    with (find_aux b rest (Z.of_nat (length (pre ++ a))))
    by (by rewrite Htext, find_from_app).
  destruct (Z.eqb_spec (find_aux b rest (Z.of_nat (length (pre ++ a)))) (-1))
    as [E|E].
  - replace (slice_from text (Z.of_nat (length (pre ++ a)))) with rest
      by (by rewrite Htext, slice_from_app).
    eapply Spec.enclosed_open; [done|].
    eapply find_aux_none; [done|lia].
  - destruct (find_aux_found b rest (Z.of_nat (length (pre ++ a))))
      as (v & post & Hfs' & ->); [lia|done|].
    pose proof Hfs' as [Hrest _].
    replace (slice text _ _) with v
      by (by rewrite Htext, Hrest, slice_app).
    by eapply Spec.enclosed_closed.
Qed.

Lemma extract_between_absent (a b text : pystr) :
  ~ Spec.occurs a text -> _extract_between text a b = [].
Proof.
  intros H. apply contains_false in H. unfold contains in H.
  apply negb_false_iff in H. unfold _extract_between. by rewrite H.
Qed.

(** The enclosed substring is unique. *)
Lemma enclosed_functional (a b text v v' : pystr) :
  Spec.enclosed a b text v -> Spec.enclosed a b text v' -> v = v'.
Proof.
  intros H1 H2.
  destruct H1 as [pre rest v post Ha Hb|pre rest Ha Hb];
    destruct H2 as [pre' rest' v' post' Ha' Hb'|pre' rest' Ha' Hb'];
    destruct (first_split_unique _ _ _ _ _ _ Ha Ha') as [-> ->].
  - by destruct (first_split_unique _ _ _ _ _ _ Hb Hb') as [-> _].
  - exfalso. apply Hb'. destruct Hb as [-> _]. by eexists _, _.
  - exfalso. apply Hb. destruct Hb' as [-> _]. by eexists _, _.
  - done.
Qed.

Lemma enclosed_extract_between (a b text v : pystr) :
  Spec.enclosed a b text v -> _extract_between text a b = v.
Proof.
  intros H. eapply enclosed_functional; [|done].
  apply extract_between_enclosed.
  destruct H as [pre rest v post [-> _] _|pre rest [-> _] _]; by eexists _, _.
Qed.

Lemma span_not_gt_app (s : pystr) :
  s = fst (span_not_gt s) ++ snd (span_not_gt s).
Proof.
  induction s as [|c s IH]; simpl; [done|].
  destruct (c =? GT)%N; [done|].
  destruct (span_not_gt s) as [body rest]. simpl in *. by rewrite <- IH.
Qed.

Lemma tag_match_shorter (s body rest : pystr) :
  tag_match s = Some (body, rest) -> (length rest < length s)%nat.
Proof.
  unfold tag_match. destruct s as [|c t]; [done|].
  destruct (c =? LT)%N; [|done].
  pose proof (span_not_gt_app t) as Ht.
  destruct (span_not_gt t) as [[|b body'] [|g rest']]; try done.
  intros [= <- <-]. simpl in Ht. rewrite Ht. simpl.
  rewrite length_app. simpl. lia.
Qed.

(** The substitution of the tags does not depend on the fuel, once there
    is one unit of it for every character. *)
Lemma tag_sub_fuel (f1 f2 : nat) (s : pystr) :
  (length s <= f1)%nat -> (length s <= f2)%nat -> tag_sub f1 s = tag_sub f2 s.
Proof.
  revert f2 s. induction f1 as [|f1 IH]; intros f2 s H1 H2.
  - destruct s; [|simpl in H1; lia]. by destruct f2.
  - destruct f2 as [|f2].
    + destruct s; [done|simpl in H2; lia].
    + cbn [tag_sub]. destruct (tag_match s) as [[body rest]|] eqn:E.
      * apply tag_match_shorter in E. rewrite (IH f2 rest) by lia. done.
      * destruct s as [|c t]; [done|]. simpl in H1, H2.
        rewrite (IH f2 t) by lia. done.
Qed.

(** The loop of [request] accumulates the concatenation of the contents,
    however the text is cut into chunks. *)
Lemma request_chunk_raw st ch :
  raw_content (fst (request_chunk st ch)) =
  raw_content st ++ default [] (Spec.chunk_content ch).
Proof.
  unfold request_chunk, Spec.chunk_content.
  destruct (choices ch) as [|[content|] ?]; simpl; try by rewrite app_nil_r.
  destruct (in_action_phase st); [done|].
  destruct (detect_marker _ _).
  - by destruct (_clean_stream_content _ _).
  - destruct (is_potential_marker _ _); [done|].
    by destruct (_clean_stream_content _ _).
Qed.

Lemma request_loop_raw chunks st :
  raw_content (fst (request_loop st chunks)) =
  raw_content st ++ Spec.concat_contents chunks.
Proof.
  revert st. induction chunks as [|ch chunks IH]; intros st; simpl.
  - by rewrite app_nil_r.
  - pose proof (request_chunk_raw st ch) as Hch.
    destruct (request_chunk st ch) as [st1 out1]. simpl in Hch.
    specialize (IH st1).
    destruct (request_loop st1 chunks) as [st2 out2]. simpl in *.
    rewrite IH, Hch, <- app_assoc. f_equal.
    unfold Spec.concat_contents. simpl.
    by destruct (Spec.chunk_content ch).
Qed.

Lemma request_parse chunks :
  fst (request (chunks, None)) =
  rbind (_parse_response (Spec.concat_contents chunks)) (fun '(thinking, action) =>
    Ok (MkModelResponse thinking action (Spec.concat_contents chunks))).
Proof.
  unfold request. simpl.
  pose proof (request_loop_raw chunks stream_init) as H.
  destruct (request_loop stream_init chunks) as [st out]. simpl in *.
  by rewrite H.
Qed.

End ParserFacts.

Section ParserClaims.

Import Client Examples.

(** Two different literals are different. *)
Ltac py_neq :=
  let H := fresh in intros H; vm_compute in H; discriminate H.

Lemma first_split_intro (sep text pre post : pystr) :
  text = pre ++ sep ++ post ->
  find text sep = Z.of_nat (length pre) ->
  Spec.first_split sep text pre post.
Proof.
  intros Heq Hfind.
  assert (Spec.occurs sep text) as Hocc by (by exists pre, post).
  destruct (occurs_first_split _ _ Hocc) as (pre' & post' & Hfs).
  rewrite (find_first_split _ _ _ _ Hfs) in Hfind.
  pose proof Hfs as [Heq' _]. rewrite Heq in Heq'.
  apply app_inj_1 in Heq' as [-> Heq']; [|lia].
  apply app_inv_head in Heq' as ->. exact Hfs.
Qed.

Lemma second_part_present (sep text : pystr) :
  contains sep text = true ->
  exists pre post, Spec.first_split sep text pre post /\
    split1 text sep = (pre, Some post).
Proof.
  intros H. apply contains_occurs, occurs_first_split in H as (pre & post & Hfs).
  exists pre, post. split; [done|]. by apply split1_first_split.
Qed.

(** The two indexings [parts[1]] of the parser are guarded by the test
    that the marker occurs, so that no input makes it raise. *)
Lemma parse_response_total (content : pystr) :
  exists thinking action, _parse_response content = Ok (thinking, action).
Proof.
  unfold _parse_response.
  destruct (contains TOOL_OPEN _); [by eexists _, _|].
  destruct (contains FINISH_MARKER content) eqn:Ef.
  { destruct (second_part_present _ _ Ef) as (pre & post & _ & ->).
    by eexists _, _. }
  destruct (contains DO_MARKER content) eqn:Ed.
  { destruct (second_part_present _ _ Ed) as (pre & post & _ & ->).
    by eexists _, _. }
  by eexists _, _.
Qed.

(** C1, as the claim states it, fails: the thinking returned for
    [<think_text> a </think_text><tool_call>b</tool_call>] is ["a"], while
    the substring enclosed between the think tags is [" a "]. *)
Lemma parse_thinking_not_exact :
  contains TOOL_OPEN (_normalize_xmlish_tags padded_reply) = true /\
  Spec.enclosed THINK_OPEN THINK_CLOSE (_normalize_xmlish_tags padded_reply) (py " a ") /\
  _parse_response padded_reply = Ok (py "a", py "b") /\
  py "a" <> py " a ".
Proof.
  split; [by vm_compute|]. split; [|split; [by vm_compute|py_neq]].
  replace (py " a ")
    with (_extract_between (_normalize_xmlish_tags padded_reply) THINK_OPEN THINK_CLOSE)
    by (by vm_compute).
  apply extract_between_enclosed, contains_occurs. by vm_compute.
Qed.

(** C1 (amended). When the tag-normalized concatenation [c] of the stream
    contains [<tool_call>], the request succeeds and returns: as thinking,
    the substring of [c] enclosed between [<think_text>] and
    [</think_text>] (everything after the opening tag when the closing
    one is absent), stripped and with every run of whitespace collapsed to
    one blank, or the empty string when [c] has no [<think_text>]; as
    action, the substring of [c] enclosed between [<tool_call>] and
    [</tool_call>] (everything after the opening tag when the closing one
    is absent), stripped, whenever that is not empty. The response depends
    on the concatenation only, not on the cut into chunks. *)
Theorem parse_tool_call_format (chunks : list chunk) :
  let content := Spec.concat_contents chunks in
  let c := _normalize_xmlish_tags content in
  contains TOOL_OPEN c = true ->
  exists thinking action,
    fst (request (chunks, None)) = Ok (MkModelResponse thinking action content) /\
    (if contains THINK_OPEN c
     then exists v, Spec.enclosed THINK_OPEN THINK_CLOSE c v /\
                    thinking = strip (sub_ws (py " ") (strip v))
     else thinking = []) /\
    (exists v, Spec.enclosed TOOL_OPEN TOOL_CLOSE c v /\
               (strip v <> [] -> action = strip v)) /\
    (forall chunks', Spec.concat_contents chunks' = content ->
       fst (request (chunks', None)) = fst (request (chunks, None))).
Proof.
  intros content c Hc. subst c content.
  rewrite request_parse. unfold _parse_response. rewrite Hc. simpl.
  eexists _, _. split; [reflexivity|]. split; [|split].
  - destruct (contains THINK_OPEN _) eqn:E.
    + eexists. split; [|reflexivity].
      by apply extract_between_enclosed, contains_occurs.
    + rewrite extract_between_absent; [reflexivity|]. by apply contains_false.
  - eexists. split; [by apply extract_between_enclosed, contains_occurs|].
    intros Hne. by destruct (strip (_extract_between _ _ _)).
  - intros chunks' Heq. rewrite request_parse, Heq.
    unfold _parse_response. by rewrite Hc.
Qed.

Lemma parse_tool_call_format_witness :
  contains TOOL_OPEN (_normalize_xmlish_tags (Spec.concat_contents tagged_chunks)) = true /\
  exists thinking action,
    fst (request (tagged_chunks, None)) =
      Ok (MkModelResponse thinking action (Spec.concat_contents tagged_chunks)).
Proof.
  assert (contains TOOL_OPEN
            (_normalize_xmlish_tags (Spec.concat_contents tagged_chunks)) = true)
    as H by (vm_compute; reflexivity).
  split; [exact H|].
  destruct (parse_tool_call_format tagged_chunks H) as (th & ac & Hr & _).
  exists th, ac. exact Hr.
Defined.

(** C2, as the claim states it, fails: on [" x"], which holds neither a
    tag nor a marker, the action returned is ["x"], not the entire text. *)
Lemma parse_fallback_strips :
  contains TOOL_OPEN (_normalize_xmlish_tags legacy_none) = false /\
  contains FINISH_MARKER legacy_none = false /\
  contains DO_MARKER legacy_none = false /\
  _parse_response legacy_none = Ok ([], py "x") /\
  py "x" <> legacy_none.
Proof. repeat split; by vm_compute. Qed.

(** C2 (amended). The parser returns a pair on every input, it never
    raises. When the tag-normalized input has no [<tool_call>]: if
    [finish(message=] occurs, the input is split at its first occurrence,
    else if [do(action=] occurs, at the first occurrence of that; the
    thinking is the text before the marker, stripped, and the action is
    the marker and everything after it; if neither occurs, the thinking is
    empty and the action is the input, stripped. *)
Theorem parse_legacy_format (content : pystr) :
  (exists thinking action, _parse_response content = Ok (thinking, action)) /\
  (contains TOOL_OPEN (_normalize_xmlish_tags content) = false ->
   (forall pre post,
      Spec.first_split FINISH_MARKER content pre post ->
      _parse_response content = Ok (strip pre, FINISH_MARKER ++ post)) /\
   (forall pre post,
      ~ Spec.occurs FINISH_MARKER content ->
      Spec.first_split DO_MARKER content pre post ->
      _parse_response content = Ok (strip pre, DO_MARKER ++ post)) /\
   (~ Spec.occurs FINISH_MARKER content ->
    ~ Spec.occurs DO_MARKER content ->
    _parse_response content = Ok ([], strip content))).
Proof.
  split; [apply parse_response_total|].
  intros Hc. unfold _parse_response. rewrite Hc. split; [|split].
  - intros pre post Hfs.
    assert (contains FINISH_MARKER content = true) as ->.
    { apply contains_occurs. destruct Hfs as [-> _]. by eexists _, _. }
    by rewrite (split1_first_split _ _ _ _ Hfs).
  - intros pre post Hnf Hfs.
    apply contains_false in Hnf as ->.
    assert (contains DO_MARKER content = true) as ->.
    { apply contains_occurs. destruct Hfs as [-> _]. by eexists _, _. }
    by rewrite (split1_first_split _ _ _ _ Hfs).
  - intros Hnf Hnd.
    apply contains_false in Hnf as ->. by apply contains_false in Hnd as ->.
Qed.

Lemma parse_legacy_format_witness :
  _parse_response legacy_both = Ok (py "hi do(action=x)", py "finish(message=y)") /\
  _parse_response legacy_do = Ok (py "tap it", py "do(action=Tap)") /\
  _parse_response legacy_none = Ok ([], py "x").
Proof.
  split; [|split].
  - apply (proj1 (proj2 (parse_legacy_format legacy_both) eq_refl)
             (py " hi do(action=x) ") (py "y)")).
    apply first_split_intro; reflexivity.
  - apply (proj1 (proj2 (proj2 (parse_legacy_format legacy_do) eq_refl))
             (py "tap it ") (py "Tap)")).
    + apply contains_false. reflexivity.
    + apply first_split_intro; reflexivity.
  - apply (proj2 (proj2 (proj2 (parse_legacy_format legacy_none) eq_refl))).
    + apply contains_false. reflexivity.
    + apply contains_false. reflexivity.
Defined.

End ParserClaims.


(** ** The streaming preview *)

Section PreviewFacts.

Import Client Spec Examples.

Lemma marker_nonempty (m : pystr) : m ∈ action_markers -> m <> [].
Proof.
  intros Hm ->. vm_compute in Hm.
  repeat (apply elem_of_cons in Hm as [Hm|Hm]; [discriminate Hm|]).
  by apply elem_of_nil in Hm.
Qed.

Lemma detect_marker_none (markers : list pystr) (buf : pystr) :
  detect_marker markers buf = None <->
  forall m, m ∈ markers -> ~ occurs m buf.
Proof.
  induction markers as [|marker ms IH]; unfold detect_marker; fold detect_marker.
  - split; [|done]. intros _ m Hm. by apply elem_of_nil in Hm.
  - destruct (contains marker buf) eqn:E.
    + split; [done|]. intros H. exfalso.
      apply (H marker); [by left|]. by apply contains_occurs.
    + rewrite IH. split.
      * intros H m Hm. apply elem_of_cons in Hm as [->|Hm]; [|by apply H].
        by apply contains_false.
      * intros H m Hm. apply H. by right.
Qed.

Lemma detect_marker_some (markers : list pystr) (buf tp : pystr) :
  detect_marker markers buf = Some tp ->
  exists m post, m ∈ markers /\ first_split m buf tp post.
Proof.
  induction markers as [|marker ms IH]; unfold detect_marker; fold detect_marker;
    [done|].
  destruct (contains marker buf) eqn:E.
  - intros [= <-].
    destruct (second_part_present _ _ E) as (pre & post & Hfs & ->).
    exists marker, post. split; [by left|done].
  - intros H. destruct (IH H) as (m & post & Hm & Hfs).
    exists m, post. split; [by right|done].
Qed.

Lemma marker_prefixes_spec (m p : pystr) :
  p ∈ marker_prefixes m <-> exists q, m = p ++ q /\ p <> [] /\ q <> [].
Proof.
  unfold marker_prefixes. rewrite list_elem_of_fmap. split.
  - intros (i & -> & Hi). apply elem_of_seq in Hi.
    exists (drop i m). split; [by rewrite take_drop|]. split.
    + intros H. apply (f_equal length) in H. rewrite length_take in H.
      simpl in H. lia.
    + intros H. apply (f_equal length) in H. rewrite length_drop in H.
      simpl in H. lia.
  - intros (q & -> & Hp & Hq). exists (length p). split.
    + by rewrite take_app_length.
    + apply elem_of_seq. rewrite length_app.
      destruct p; [done|]. destruct q; [done|]. simpl. lia.
Qed.

Lemma is_potential_marker_spec (buf : pystr) :
  is_potential_marker action_markers buf = true <-> ends_in_partial_marker buf.
Proof.
  unfold is_potential_marker, ends_in_partial_marker.
  rewrite existsb_exists. split.
  - intros (m & Hm & H). apply existsb_exists in H as (p & Hp & He).
    apply list_elem_of_In in Hm, Hp.
    apply marker_prefixes_spec in Hp as (q & -> & Hp & Hq).
    apply endswith_spec in He as [r ->].
    by exists (p ++ q), p, q, r.
  - intros (m & p & q & r & Hm & -> & Hp & Hq & ->).
    exists (p ++ q). split; [by apply list_elem_of_In|].
    apply existsb_exists. exists p. split.
    + apply list_elem_of_In, marker_prefixes_spec. by exists q.
    + apply endswith_spec. by exists r.
Qed.

Lemma is_potential_marker_false (buf : pystr) :
  is_potential_marker action_markers buf = false <-> ~ ends_in_partial_marker buf.
Proof.
  rewrite <- is_potential_marker_spec.
  by destruct (is_potential_marker action_markers buf).
Qed.

(** Two pieces of text without a marker, the first of which does not end
    in the beginning of one, make a text without a marker. *)
Lemma holds_marker_app (F B : pystr) :
  ~ holds_marker F -> ~ ends_in_partial_marker F -> ~ holds_marker B ->
  ~ holds_marker (F ++ B).
Proof.
  intros HF HpF HB (m & Hm & pre & post & Heq).
  apply app_eq_inv in Heq as [(k & HFeq & Heq)|(k & Hpre & HBeq)].
  - apply app_eq_inv in Heq as [(k' & Hmeq & HBeq)|(k' & Hk & Hpost)].
    + destruct k as [|c k].
      * apply HB. exists m. split; [done|].
        exists [], post. change (m = k') in Hmeq. by rewrite HBeq, Hmeq.
      * destruct k' as [|d k'].
        -- apply HF. exists m. split; [done|].
           exists pre, []. by rewrite HFeq, Hmeq, !app_nil_r.
        -- apply HpF. exists m, (c :: k), (d :: k'), pre. by repeat split.
    + apply HF. exists m. split; [done|].
      exists pre, k'. by rewrite HFeq, Hk.
  - apply HB. exists m. split; [done|]. by exists k, post.
Qed.

(** Appending a piece that does not end in the beginning of a marker to
    one that does not either gives one that does not. *)
Lemma partial_marker_app (F B : pystr) :
  ~ ends_in_partial_marker F -> ~ ends_in_partial_marker B ->
  ~ ends_in_partial_marker (F ++ B).
Proof.
  intros HF HB (m & p & q & r & Hm & Hmeq & Hp & Hq & Heq).
  apply app_eq_inv in Heq as [(k & HFeq & Hpeq)|(k & Hr & HBeq)].
  - destruct k as [|c k].
    + apply HB. exists m, p, q, []. change (p = B) in Hpeq. by repeat split.
    + apply HF. exists m, (c :: k), (B ++ q), r. repeat split; try done.
      * by rewrite Hmeq, Hpeq, <- app_assoc.
      * intros H. apply app_eq_nil in H as [_ ?]. done.
  - apply HB. by exists m, p, q, k.
Qed.

(** The characters of a marker after the first are never the first
    character of a marker. *)
Lemma marker_tail_heads :
  forallb (fun m1 => forallb (fun c => forallb (fun m =>
    match m with d :: _ => negb (c =? d)%N | [] => false end)
    action_markers) (tail m1)) action_markers = true.
Proof. by vm_compute. Qed.

(** No occurrence of a marker lies across the place where a marker
    starts. *)
Lemma marker_start_not_cut (before m post : pystr) :
  m ∈ action_markers -> ~ cuts_marker before (m ++ post).
Proof.
  intros Hm (m1 & p & q & r & u & Hm1 & Hm1eq & Hp & Hq & _ & Heq).
  destruct p as [|a p]; [done|]. destruct q as [|c q]; [done|].
  destruct m as [|d m]; [by apply marker_nonempty in Hm|].
  simpl in Heq. injection Heq as -> _.
  pose proof (proj1 (forallb_forall _ _) marker_tail_heads m1
                (proj1 (list_elem_of_In _ _) Hm1)) as H1.
  cbv beta in H1.
  assert (In c (tail m1)) as Hc.
  { rewrite Hm1eq. simpl. apply in_or_app. right. by left. }
  pose proof (proj1 (forallb_forall _ _) H1 c Hc) as H2. cbv beta in H2.
  pose proof (proj1 (forallb_forall _ _) H2 (c :: m)
                (proj1 (list_elem_of_In _ _) Hm)) as H3.
  cbv beta iota in H3. by rewrite N.eqb_refl in H3.
Qed.

Lemma not_partial_not_cut (before after : pystr) :
  ~ ends_in_partial_marker before -> ~ cuts_marker before after.
Proof.
  intros H (m & p & q & r & u & Hm & Hmeq & Hp & Hq & Hb & _).
  apply H. by exists m, p, q, r.
Qed.

Lemma preview_of_snoc (tg : tag_state) (segs : list pystr) (seg : pystr) :
  preview_of tg (segs ++ [seg]) =
  let '(prints, tg1) := preview_of tg segs in
  let '(text, tg2) := _clean_stream_content seg tg1 in
  (prints ++ print_nonempty text, tg2).
Proof.
  revert tg. induction segs as [|s segs IH]; intros tg; simpl.
  - destruct (_clean_stream_content seg tg) as [text tg2].
    by rewrite app_nil_r.
  - destruct (_clean_stream_content s tg) as [text1 tg1].
    rewrite IH. destruct (preview_of tg1 segs) as [prints tg'].
    destruct (_clean_stream_content seg tg') as [text tg2].
    by rewrite app_assoc.
Qed.

Lemma not_holds_marker_nil : ~ holds_marker [].
Proof.
  intros (m & Hm & pre & post & Heq).
  apply marker_nonempty in Hm. symmetry in Heq.
  apply app_eq_nil in Heq as [_ Heq]. by apply app_eq_nil in Heq as [? _].
Qed.

Lemma not_partial_marker_nil : ~ ends_in_partial_marker [].
Proof.
  intros (m & p & q & r & _ & _ & Hp & _ & Heq).
  symmetry in Heq. by apply app_eq_nil in Heq as [_ ?].
Qed.

Lemma preview_inv_init : preview_inv stream_init [].
Proof.
  exists [], []. simpl. repeat split; try done.
  - intros s1 s2 H. symmetry in H. by apply app_eq_nil in H as [_ ?].
  - apply not_holds_marker_nil.
  - apply not_partial_marker_nil.
  - apply not_holds_marker_nil.
Qed.

(** The boundaries inside a sequence of segments extended by one. *)
Lemma boundaries_snoc (P : pystr -> Prop) (segs : list pystr) (seg : pystr) :
  (forall s1 s2, segs = s1 ++ s2 -> s2 <> [] -> P (concat s1)) ->
  P (concat segs) ->
  forall s1 s2, segs ++ [seg] = s1 ++ s2 -> s2 <> [] -> P (concat s1).
Proof.
  intros HA Hlast s1 s2 Heq Hne.
  destruct s2 as [|x s2 _] using rev_ind; [done|].
  rewrite app_assoc in Heq. apply app_inj_tail in Heq as [-> _].
  destruct s2 as [|y s2].
  - by rewrite app_nil_r in Hlast.
  - by apply (HA s1 (y :: s2)).
Qed.

Lemma concat_snoc (segs : list pystr) (seg : pystr) :
  concat (segs ++ [seg]) = concat segs ++ seg.
Proof. rewrite concat_app. simpl. by rewrite app_nil_r. Qed.

(** One iteration of the loop keeps the relation. *)
Lemma preview_inv_step st out ch :
  preview_inv st out ->
  preview_inv (fst (request_chunk st ch)) (out ++ snd (request_chunk st ch)).
Proof.
  intros (segs & rest & Hraw & Htags & Hout & HA & HB).
  unfold request_chunk.
  destruct (choices ch) as [|[content|] others]; simpl;
    try (rewrite app_nil_r; by exists segs, rest).
  destruct (in_action_phase st) eqn:Hphase.
  { (* the action phase: the content only joins the raw text *)
    simpl. rewrite app_nil_r.
    destruct HB as (m & post & Hm & ->).
    exists segs, (m ++ post ++ content). simpl.
    split_and!; try done.
    - by rewrite Hraw, <- !app_assoc.
    - by exists m, (post ++ content). }
  destruct HB as (-> & Hnh & Hnp & Hnb).
  destruct (detect_marker action_markers (buffer st ++ content)) as [tp|] eqn:Hd.
  - (* a marker is detected *)
    destruct (detect_marker_some _ _ _ Hd) as (m & post & Hm & [Hbuf _]).
    pose proof (preview_of_snoc (tags stream_init) segs tp) as Hsnoc.
    destruct (preview_of (tags stream_init) segs) as [prints tg1] eqn:Hp.
    simpl in Htags, Hout. subst tg1.
    destruct (_clean_stream_content tp (tags st)) as [text tg2] eqn:Hc.
    exists (segs ++ [tp]), (m ++ post). simpl.
    simpl in Hsnoc. rewrite Hsnoc. simpl. split_and!.
    + by rewrite Hraw, concat_snoc, <- !app_assoc, Hbuf.
    + done.
    + by rewrite Hout, <- !app_assoc.
    + by apply (boundaries_snoc (fun t => ~ ends_in_partial_marker t)).
    + by exists m, post.
  - pose proof (proj1 (detect_marker_none _ _) Hd) as Hnone.
    assert (~ holds_marker (buffer st ++ content)) as Hnb'.
    { intros (m & Hm & Hocc). by apply (Hnone m). }
    destruct (is_potential_marker action_markers (buffer st ++ content)) eqn:Hpot.
    + (* the buffer is held back *)
      simpl. rewrite app_nil_r.
      exists segs, (buffer st ++ content). simpl.
      split_and!; try done. by rewrite Hraw, <- app_assoc.
    + (* the buffer is printed and emptied *)
      apply is_potential_marker_false in Hpot.
      pose proof (preview_of_snoc (tags stream_init) segs (buffer st ++ content))
        as Hsnoc.
        destruct (preview_of (tags stream_init) segs) as [prints tg1] eqn:Hp.
      simpl in Htags, Hout. subst tg1.
      destruct (_clean_stream_content (buffer st ++ content) (tags st))
        as [text tg2] eqn:Hc.
      exists (segs ++ [buffer st ++ content]), []. simpl.
      simpl in Hsnoc. rewrite Hsnoc. simpl. rewrite concat_snoc. split_and!.
      * by rewrite Hraw, app_nil_r, <- !app_assoc.
      * done.
      * by rewrite Hout, !app_nil_r.
      * by apply (boundaries_snoc (fun t => ~ ends_in_partial_marker t)).
      * done.
      * by apply holds_marker_app.
      * by apply partial_marker_app.
      * apply not_holds_marker_nil.
Qed.

Lemma preview_inv_loop chunks st out :
  preview_inv st out ->
  preview_inv (fst (request_loop st chunks)) (out ++ snd (request_loop st chunks)).
Proof.
  revert st out. induction chunks as [|ch chunks IH]; intros st out Hinv; simpl.
  - by rewrite app_nil_r.
  - pose proof (preview_inv_step st out ch Hinv) as Hstep.
    destruct (request_chunk st ch) as [st1 out1]. simpl in Hstep.
    specialize (IH _ _ Hstep).
    destruct (request_loop st1 chunks) as [st2 out2]. simpl in *.
    by rewrite app_assoc.
Qed.

(** Once in the action phase, the loop prints nothing and stays there. *)
Lemma action_phase_silent chunks st :
  in_action_phase st = true ->
  snd (request_loop st chunks) = [] /\
  in_action_phase (fst (request_loop st chunks)) = true.
Proof.
  revert st. induction chunks as [|ch chunks IH]; intros st Hphase; simpl; [done|].
  assert (snd (request_chunk st ch) = [] /\
          in_action_phase (fst (request_chunk st ch)) = true) as [Ho Hp].
  { unfold request_chunk.
    destruct (choices ch) as [|[content|] others]; simpl; try done.
    by rewrite Hphase. }
  destruct (request_chunk st ch) as [st1 out1]. simpl in Ho, Hp. subst out1.
  destruct (IH st1 Hp) as [Ho' Hp'].
  by destruct (request_loop st1 chunks) as [st2 out2].
Qed.

(** C7. Over one exchange, the preview printed by the stream loop is the
    cleaning of consecutive raw segments that make up the beginning of the
    received text, and no segment boundary lies inside an occurrence of a
    marker, whatever text comes later; the loop is in the action phase
    exactly when the received text holds a marker. A buffer that holds no
    marker and ends with a strict prefix of one is held back whole:
    nothing is printed and the buffer is kept. Once a marker has been
    detected nothing more is printed. *)
Theorem preview_never_cuts_marker :
  (forall chunks,
     exists segs rest,
       concat_contents chunks = concat segs ++ rest /\
       snd (request_loop stream_init chunks) =
         fst (preview_of (tags stream_init) segs) ++
         (if in_action_phase (fst (request_loop stream_init chunks))
          then [NEWLINE] else []) /\
       (forall s1 s2 later, segs = s1 ++ s2 ->
          ~ cuts_marker (concat s1) (concat s2 ++ rest ++ later)) /\
       (in_action_phase (fst (request_loop stream_init chunks)) = true <->
        holds_marker (concat_contents chunks))) /\
  (forall st content others,
     in_action_phase st = false ->
     ~ holds_marker (buffer st ++ content) ->
     ends_in_partial_marker (buffer st ++ content) ->
     snd (request_chunk st (Chunk (Some content :: others))) = [] /\
     buffer (fst (request_chunk st (Chunk (Some content :: others)))) =
       buffer st ++ content /\
     in_action_phase (fst (request_chunk st (Chunk (Some content :: others)))) =
       false) /\
  (forall st chunks,
     in_action_phase st = true ->
     snd (request_loop st chunks) = [] /\
     in_action_phase (fst (request_loop st chunks)) = true).
Proof.
  split; [|split].
  - intros chunks.
    pose proof (preview_inv_loop chunks stream_init [] preview_inv_init)
      as (segs & rest & Hraw & _ & Hout & HA & HB).
    rewrite request_loop_raw in Hraw. simpl in Hraw, Hout.
    exists segs, rest. split_and!; try done.
    + intros s1 s2 later ->.
      destruct s2 as [|x s2].
      * simpl. rewrite app_nil_r in HB.
        destruct (in_action_phase _).
        -- destruct HB as (m & post & Hm & ->). rewrite <- app_assoc.
           by apply marker_start_not_cut.
        -- destruct HB as (_ & _ & Hnp & _). by apply not_partial_not_cut.
      * apply not_partial_not_cut. by apply (HA s1 (x :: s2)).
    + rewrite Hraw. destruct (in_action_phase _).
      * split; [|done]. intros _.
        destruct HB as (m & post & Hm & ->).
        exists m. split; [done|]. by exists (concat segs), post.
      * split; [done|]. intros Hh. exfalso.
        destruct HB as (-> & Hnh & Hnp & Hnb).
        exact (holds_marker_app _ _ Hnh Hnp Hnb Hh).
  - intros st content others Hphase Hnh Hpart.
    unfold request_chunk. simpl. rewrite Hphase.
    destruct (detect_marker action_markers (buffer st ++ content)) as [tp|] eqn:Hd.
    { exfalso. apply Hnh.
      destruct (detect_marker_some _ _ _ Hd) as (m & post & Hm & [-> _]).
      exists m. split; [done|]. by exists tp, post. }
    apply is_potential_marker_spec in Hpart. by rewrite Hpart.
  - intros st chunks. apply action_phase_silent.
Qed.

Lemma preview_never_cuts_marker_witness :
  snd (request_chunk state_before_split (Chunk [Some split_fragment])) = [] /\
  buffer (fst (request_chunk state_before_split (Chunk [Some split_fragment]))) =
    split_fragment /\
  snd (request_loop state_after_marker [Chunk [Some (py " more")]]) = [].
Proof.
  destruct preview_never_cuts_marker as (_ & Hhold & Hsilent).
  split_and!.
  - apply (Hhold state_before_split split_fragment []).
    + reflexivity.
    + intros (m & Hm & Hocc).
      assert (detect_marker action_markers
                (buffer state_before_split ++ split_fragment) = None) as Hd
        by reflexivity.
      exact (proj1 (detect_marker_none _ _) Hd m Hm Hocc).
    + apply is_potential_marker_spec. reflexivity.
  - apply (Hhold state_before_split split_fragment []).
    + reflexivity.
    + intros (m & Hm & Hocc).
      assert (detect_marker action_markers
                (buffer state_before_split ++ split_fragment) = None) as Hd
        by reflexivity.
      exact (proj1 (detect_marker_none _ _) Hd m Hm Hocc).
    + apply is_potential_marker_spec. reflexivity.
  - apply (Hsilent state_after_marker [Chunk [Some (py " more")]]).
    reflexivity.
Defined.

End PreviewFacts.


(** ** The retry tracker *)

Section TrackerFacts.

Context {W : Type} `{Collaborators W}.

Import Spec.

Lemma eqb_refl (s : pystr) : PyStr.eqb s s = true.
Proof. unfold PyStr.eqb. by apply bool_decide_eq_true. Qed.

Lemma py_eq_refl : forall v, py_eq v v = true.
Proof.
  fix IH 1. intros [|b|z|s|l]; simpl.
  - done.
  - by destruct b.
  - apply Z.eqb_refl.
  - apply eqb_refl.
  - induction l as [|x l IHl]; [done|].
    by rewrite IH, IHl.
Qed.

Lemma py_eq_None_r (v : pyval) : truthy v = true -> py_eq v PNone = false.
Proof. by destruct v. Qed.

(** The effect of one update, by the outcome of the target rendering. *)
Lemma update_state_ok (act : pydict) (tg : pyval) (a : agent) (w : W) :
  _format_action_target act = Ok tg ->
  _update_last_action_state act (a, w) =
  (Ok tt,
   (if truthy (action_type_of act)
       && py_eq (action_type_of act) (_last_action_type a)
       && py_eq tg (_last_action_target a)
    then MkAgent (_context a) (_step_count a) (_last_action_type a)
                 (_last_action_target a) (_retry_count a + 1)
    else MkAgent (_context a) (_step_count a) (action_type_of act) tg
                 (if truthy (action_type_of act) then 1 else 0), w)).
Proof.
  intros Htg. unfold _update_last_action_state, mbind, M_bind, pure_result, update.
  by rewrite Htg.
Qed.

Lemma update_state_raise (act : pydict) (e : exn) (s : agent * W) :
  _format_action_target act = Raise e ->
  _update_last_action_state act s = (Raise e, s).
Proof.
  intros Htg. unfold _update_last_action_state, mbind, M_bind, pure_result.
  by rewrite Htg.
Qed.

(** Repeating the stored signature raises the count by one each time. *)
Lemma feed_same (acts : list pydict) (ty tg : pyval) (a : agent) (w : W) :
  truthy ty = true ->
  (forall act, act ∈ acts ->
     action_type_of act = ty /\ _format_action_target act = Ok tg) ->
  _last_action_type a = ty ->
  _last_action_target a = tg ->
  feed acts (a, w) =
  (Ok tt, (MkAgent (_context a) (_step_count a) ty tg
             (_retry_count a + Z.of_nat (length acts)), w)).
Proof.
  intros Hty. revert a. induction acts as [|act acts IH]; intros a Hall Ht Hg.
  - simpl. unfold mret, M_ret. destruct a; simpl in *. subst.
    by rewrite Z.add_0_r.
  - destruct (Hall act) as [Hact Htg]; [by left|].
    simpl. unfold mbind, M_bind. rewrite (update_state_ok _ _ _ _ Htg).
    rewrite Hact, Ht, Hg, Hty, !py_eq_refl. simpl.
    fold (@mbind (M W) _). 
    rewrite (IH _); simpl; try done.
    + do 3 f_equal. lia.
    + intros act' Hin. apply Hall. by right.
Qed.

(** With an empty type the count stays at zero. *)
Lemma feed_empty_type (acts : list pydict) (ty tg : pyval) (a : agent) (w : W) :
  truthy ty = false ->
  (forall act, act ∈ acts ->
     action_type_of act = ty /\ _format_action_target act = Ok tg) ->
  _retry_count a = 0 ->
  exists a', feed acts (a, w) = (Ok tt, (a', w)) /\ _retry_count a' = 0.
Proof.
  intros Hty. revert a. induction acts as [|act acts IH]; intros a Hall Hc.
  - by exists a.
  - destruct (Hall act) as [Hact Htg]; [by left|].
    simpl. unfold mbind, M_bind. rewrite (update_state_ok _ _ _ _ Htg).
    rewrite Hact, Hty. simpl. fold (@mbind (M W) _).
    apply IH; [|done]. intros act' Hin. apply Hall. by right.
Qed.

Lemma py_eq_truthy : forall x y, py_eq x y = true -> truthy x = truthy y.
Proof.
  intros [|b|z|s|l] [|b'|z'|s'|l']; simpl; try done.
  - by destruct b, b'.
  - intros Hz%Z.eqb_eq. subst. by destruct b.
  - intros Hz%Z.eqb_eq. subst. by destruct b'.
  - intros Hz%Z.eqb_eq. by subst.
  - unfold PyStr.eqb. intros Hs%bool_decide_eq_true. by subst.
  - by destruct l, l'.
Qed.

End TrackerFacts.

Section TrackerClaims.

Context {W : Type} `{Collaborators W} (config : AgentConfig).

Import Spec Examples.

(** C4 (amended). From a reset tracker, feeding [N] actions that all have
    the same signature yields a count of [N] when the type of the
    signature is non-empty, and a count of 0 when it is empty. An action
    whose signature differs from the stored one replaces the stored type
    and target, and sets the count to 1 if its type is non-empty, else
    to 0. *)
Theorem retry_count_tracks_repeats (a : agent) (w : W) :
  (forall acts ty tg,
     truthy ty = true ->
     (forall act, act ∈ acts ->
        action_type_of act = ty /\ _format_action_target act = Ok tg) ->
     exists a',
       feed acts (_reset_action_tracking a, w) = (Ok tt, (a', w)) /\
       _retry_count a' = Z.of_nat (length acts)) /\
  (forall acts ty tg,
     truthy ty = false ->
     (forall act, act ∈ acts ->
        action_type_of act = ty /\ _format_action_target act = Ok tg) ->
     exists a',
       feed acts (_reset_action_tracking a, w) = (Ok tt, (a', w)) /\
       _retry_count a' = 0) /\
  (forall act tg,
     _format_action_target act = Ok tg ->
     py_eq (action_type_of act) (_last_action_type a)
       && py_eq tg (_last_action_target a) = false ->
     exists a',
       _update_last_action_state act (a, w) = (Ok tt, (a', w)) /\
       _last_action_type a' = action_type_of act /\
       _last_action_target a' = tg /\
       _retry_count a' = if truthy (action_type_of act) then 1 else 0).
Proof.
  split_and!.
  - intros acts ty tg Hty Hall. destruct acts as [|act acts].
    + by eexists.
    + destruct (Hall act) as [Hact Htg]; [by left|].
      simpl. unfold mbind, M_bind. rewrite (update_state_ok _ _ _ _ Htg).
      rewrite Hact, Hty. simpl. rewrite (py_eq_None_r _ Hty). simpl.
      fold (@mbind (M W) _).
      rewrite (feed_same acts ty tg); simpl; try done.
      * eexists. split; [done|]. simpl. lia.
      * intros act' Hin. apply Hall. by right.
  - intros acts ty tg Hty Hall. by eapply feed_empty_type.
  - intros act tg Htg Hdiff. rewrite (update_state_ok _ _ _ _ Htg).
    rewrite <- andb_assoc, Hdiff, andb_false_r. by eexists.
Qed.

(** The relation between the tracker and the actions classified since
    the last reset. *)
Lemma run_ops_inv (ops : list tracker_op) (a : agent) (w : W) (seen : list pydict) :
  0 <= _retry_count a ->
  (_retry_count a = 0 <-> truthy (_last_action_type a) = false) ->
  truthy (_last_action_type a) =
    match last seen with Some act => truthy (action_type_of act) | None => false end ->
  let a' := fst (run_ops ops (a, w)) in
  0 <= _retry_count a' /\
  (_retry_count a' = 0 <-> truthy (_last_action_type a') = false) /\
  truthy (_last_action_type a') =
    match last (classified ops seen) with
    | Some act => truthy (action_type_of act)
    | None => false
    end.
Proof.
  revert a w seen. induction ops as [|[act|] ops IH]; intros a w seen H0 Hz Hl.
  - done.
  - simpl. destruct (_format_action_target act) as [tg|e] eqn:Htg.
    + rewrite (update_state_ok _ _ _ _ Htg). simpl.
      destruct (truthy (action_type_of act)) eqn:Hty; simpl.
      * destruct (py_eq (action_type_of act) (_last_action_type a)) eqn:He; simpl.
        -- apply py_eq_truthy in He. rewrite Hty in He.
           destruct (py_eq tg (_last_action_target a)).
           ++ apply IH; simpl; [lia| |by rewrite last_snoc, Hty].
              split; [lia|]. by rewrite <- He.
           ++ apply IH; simpl; [lia| |by rewrite last_snoc].
              by rewrite Hty.
        -- apply IH; simpl; [lia| |by rewrite last_snoc]. by rewrite Hty.
      * apply IH; simpl; [lia| |by rewrite last_snoc]. by rewrite Hty.
    + rewrite (update_state_raise _ _ _ Htg). simpl. by apply IH.
  - simpl. by apply IH.
Qed.

(** C9 (amended). In every state reached from a reset tracker by a
    sequence of updates and resets, the count is not negative; it is 0 if
    and only if the stored type is empty, that is, if and only if no
    action has been classified since the last reset or the last one
    classified has an empty type; otherwise it is at least 1. *)
Theorem retry_count_zero_iff (ops : list tracker_op) (a : agent) (w : W) :
  let a' := fst (run_ops ops (_reset_action_tracking a, w)) in
  0 <= _retry_count a' /\
  (_retry_count a' = 0 <-> truthy (_last_action_type a') = false) /\
  (_retry_count a' = 0 <->
   match last (classified ops []) with
   | Some act => truthy (action_type_of act) = false
   | None => True
   end) /\
  (_retry_count a' <> 0 -> 1 <= _retry_count a').
Proof.
  intros a'.
  destruct (run_ops_inv ops (_reset_action_tracking a) w []) as (H0 & Hz & Hl);
    [done..|].
  fold a' in H0, Hz, Hl. split_and!; [done|done| |lia].
  rewrite Hz, Hl. by destruct (last (classified ops [])).
Qed.

(** The note without the clause ends with its fixed last words, not with
    the clause. *)
Lemma base_note_tail (x : pystr) :
  endswith (x ++ py " 次，界面未变化/状态仍未达成") ESCALATION = false.
Proof.
  unfold endswith. rewrite rev_app_distr. vm_compute. reflexivity.
Qed.

Lemma base_note_no_clause (a : agent) : endswith (base_note a) ESCALATION = false.
Proof.
  unfold base_note. rewrite !app_assoc. apply base_note_tail.
Qed.

(** C8. The default of the threshold is 3. With the threshold at 3, a
    retry note is rendered whenever the stored type is non-empty and the
    count is at least 1; the rendered note is the plain note, which does
    not end with the escalation clause, for a count of 1 or 2, and the
    plain note followed by the escalation clause for every count from 3
    on. *)
Theorem retry_note_escalation (a : agent) :
  (forall prompt, retry_reminder_threshold (AgentConfig_default prompt) = 3) /\
  (retry_reminder_threshold config = 3 ->
   (truthy (_last_action_type a) = true -> 1 <= _retry_count a ->
    is_Some (_build_retry_note config a)) /\
   (forall note,
      _build_retry_note config a = Some note ->
      (1 <= _retry_count a <= 2 ->
       note = base_note a /\ endswith note ESCALATION = false) /\
      (3 <= _retry_count a ->
       note = base_note a ++ ESCALATION /\ endswith note ESCALATION = true))).
Proof.
  split; [done|].
  intros Hthr. unfold _build_retry_note. rewrite Hthr.
  destruct (truthy (_last_action_type a)) eqn:Hty; simpl.
  2: { split; [done|]. by intros note [=]. }
  destruct (Z.leb_spec (_retry_count a) 0) as [Hle|Hgt].
  { split; [lia|]. by intros note [=]. }
  destruct (Z.leb_spec 3 (_retry_count a)) as [H3|H3].
  - split; [by eexists|]. intros note [= <-]. split; [lia|]. intros _.
    split; [done|]. apply endswith_spec. by exists (base_note a).
  - split; [by eexists|]. intros note [= <-]. split; [|lia]. intros _.
    split; [done|]. apply base_note_no_clause.
Qed.

End TrackerClaims.

Section TrackerRuns.

Import Spec Examples.

(** C4, as the claim states it, fails: a [do] action whose name is the
    empty string, fed once to a reset tracker, leaves the count at 0. *)
Lemma retry_count_empty_type :
  @action_type_of nameless_action = PStr [] /\
  @_format_action_target nat (scripted tap_forever) nameless_action = Ok (PStr []) /\
  _retry_count
    (fst (snd (@feed nat (scripted tap_forever) [nameless_action]
                 (_reset_action_tracking new_agent, 0%nat)))) = 0 /\
  Z.of_nat (length [nameless_action]) = 1.
Proof. by vm_compute. Qed.

Lemma retry_count_tracks_repeats_witness :
  exists a',
    @feed nat (scripted tap_forever) [tap_action; tap_action; tap_action]
      (_reset_action_tracking new_agent, 0%nat) = (Ok tt, (a', 0%nat)) /\
    _retry_count a' = 3.
Proof.
  apply (proj1 (@retry_count_tracks_repeats nat (scripted tap_forever) new_agent 0%nat)
           [tap_action; tap_action; tap_action] (PStr (py "Tap")) (PStr (py "(100, 200)"))).
  - reflexivity.
  - intros act Hin.
    repeat (apply elem_of_cons in Hin as [->|Hin]; [split; reflexivity|]).
    by apply elem_of_nil in Hin.
Defined.

(** C9, as the claim states it, fails: after one update with a [do]
    action whose name is the empty string, an action has been classified
    since the last reset and the count is 0. *)
Lemma retry_count_zero_after_update :
  @classified nat (scripted tap_forever) [Update nameless_action] [] = [nameless_action] /\
  _retry_count
    (fst (@run_ops nat (scripted tap_forever) [Update nameless_action]
            (_reset_action_tracking new_agent, 0%nat))) = 0.
Proof. by vm_compute. Qed.

Lemma retry_note_escalation_witness :
  (exists note,
     @_build_retry_note nat (scripted tap_forever) default_config
       (MkAgent [] 2 (PStr (py "Tap")) (PStr (py "(100, 200)")) 2) = Some note /\
     endswith note ESCALATION = false) /\
  (exists note,
     @_build_retry_note nat (scripted tap_forever) default_config
       (MkAgent [] 3 (PStr (py "Tap")) (PStr (py "(100, 200)")) 3) = Some note /\
     endswith note ESCALATION = true).
Proof.
  split.
  - destruct (proj2 (@retry_note_escalation nat (scripted tap_forever) default_config
                (MkAgent [] 2 (PStr (py "Tap")) (PStr (py "(100, 200)")) 2)) eq_refl)
      as [Hsome Hnote].
    destruct Hsome as [note Hn]; [reflexivity|simpl; lia|].
    exists note. split; [exact Hn|].
    apply (proj1 (Hnote note Hn)). simpl. lia.
  - destruct (proj2 (@retry_note_escalation nat (scripted tap_forever) default_config
                (MkAgent [] 3 (PStr (py "Tap")) (PStr (py "(100, 200)")) 3)) eq_refl)
      as [Hsome Hnote].
    destruct Hsome as [note Hn]; [reflexivity|simpl; lia|].
    exists note. split; [exact Hn|].
    apply (proj2 (Hnote note Hn)). simpl. lia.
Defined.

Example retry_note_third_tap :
  @_build_retry_note nat (scripted tap_forever) default_config
    (MkAgent [] 3 (PStr (py "Tap")) (PStr (py "(100, 200)")) 3) =
  Some (py "已尝试 Tap (100, 200) 共 3 次，界面未变化/状态仍未达成。请考虑其他策略或调用 finish 请求人工接管。").
Proof. by vm_compute. Qed.

Lemma retry_count_zero_iff_witness :
  1 <= _retry_count
         (fst (@run_ops nat (scripted tap_forever)
                 [Update tap_action; Update tap_action; Reset; Update tap_action]
                 (_reset_action_tracking new_agent, 0%nat))).
Proof.
  apply (proj2 (proj2 (proj2 (@retry_count_zero_iff nat (scripted tap_forever)
           [Update tap_action; Update tap_action; Reset; Update tap_action]
           new_agent 0%nat)))).
  vm_compute. discriminate.
Defined.

End TrackerRuns.

(** ** The step *)

Section StepFacts.

Context {W : Type} `{Collaborators W} (config : AgentConfig).

Import Spec.

Lemma is_finish_finish (m : pyval) : is_finish (finish m) = true.
Proof. reflexivity. Qed.

Lemma get_message_finish (m : pyval) : get (finish m) "message" = m.
Proof. reflexivity. Qed.

Lemma format_target_finish (m : pyval) :
  _format_action_target (finish m) = Ok m.
Proof. reflexivity. Qed.

(** An error of the device snapshot leaves the step. *)
Lemma step_screenshot_raises up isf a w e w1 :
  get_screenshot (device_id config) w = (Raise e, w1) ->
  fst (_execute_step config up isf (a, w)) = Raise e.
Proof.
  intros Hs. unfold _execute_step, mbind, M_bind, update, call. simpl.
  by rewrite Hs.
Qed.

Lemma step_app_raises up isf a w shot e w1 w2 :
  get_screenshot (device_id config) w = (Ok shot, w1) ->
  get_current_app (device_id config) w1 = (Raise e, w2) ->
  fst (_execute_step config up isf (a, w)) = Raise e.
Proof.
  intros Hs Ha. unfold _execute_step, mbind, M_bind, update, call. simpl.
  rewrite Hs. simpl. by rewrite Ha.
Qed.

(** The retry note is made from the tracker fields only. *)
Lemma compose_user_text_ext (a a' : agent) (text : pystr) :
  _last_action_type a = _last_action_type a' ->
  _last_action_target a = _last_action_target a' ->
  _retry_count a = _retry_count a' ->
  _compose_user_text config a text = _compose_user_text config a' text.
Proof.
  intros Ht Hg Hc. unfold _compose_user_text, _build_retry_note.
  by rewrite Ht, Hg, Hc.
Qed.

Lemma request_raises (chunks : list Client.chunk) (e : exn) :
  fst (Client.request (chunks, Some e)) = Raise e.
Proof.
  unfold Client.request. simpl. by destruct (Client.request_loop _ _).
Qed.

(** An exception of the request that [except Exception] catches ends the
    step with the result that reports it. *)
Lemma step_model_error up isf a w shot app e chunks w1 w2 w3 :
  get_screenshot (device_id config) w = (Ok shot, w1) ->
  get_current_app (device_id config) w1 = (Ok app, w2) ->
  open_stream (sent_context config up isf a shot app) w2 = ((chunks, Some e), w3) ->
  is_Exception e = true ->
  _execute_step config up isf (a, w) =
  (Ok (model_error_result e), (turn_agent config up isf a shot app, w3)).
Proof.
  intros Hs Ha Ho He.
  unfold _execute_step, mbind, M_bind, update, call. cbn.
  rewrite Hs. cbn. rewrite Ha. cbn.
  unfold sent_context, user_text in Ho.
  destruct isf; cbn; cbn in Ho;
    unfold append_context, read, update, mbind, M_bind; cbn;
    unfold try_except, model_request, mbind, M_bind, read, call_total, pure_result;
    cbn;
    rewrite (compose_user_text_ext _ a) by reflexivity;
    rewrite Ho; cbn; rewrite request_raises, He; reflexivity.
Qed.

(** After a request that succeeds the step goes on with the response. *)
Lemma step_request_ok up isf a w shot app chunks response w1 w2 w3 :
  get_screenshot (device_id config) w = (Ok shot, w1) ->
  get_current_app (device_id config) w1 = (Ok app, w2) ->
  open_stream (sent_context config up isf a shot app) w2 = ((chunks, None), w3) ->
  fst (Client.request (chunks, None)) = Ok response ->
  _execute_step config up isf (a, w) =
  act_on shot response (turn_agent config up isf a shot app, w3).
Proof.
  intros Hs Ha Ho Hr.
  unfold _execute_step, mbind, M_bind, update, call. cbn.
  rewrite Hs. cbn. rewrite Ha. cbn.
  unfold sent_context, user_text in Ho.
  destruct isf; cbn; cbn in Ho;
    unfold append_context, read, update, mbind, M_bind; cbn;
    unfold try_except, model_request, mbind, M_bind, read, call_total, pure_result;
    cbn;
    rewrite (compose_user_text_ext _ a) by reflexivity;
    rewrite Ho; cbn; rewrite Hr; reflexivity.
Qed.

Lemma set_last_context_snoc f (a : agent) (w : W) ctx m :
  _context a = ctx ++ [m] ->
  set_last_context f (a, w) =
  (Ok tt, (MkAgent (ctx ++ [f m]) (_step_count a) (_last_action_type a)
             (_last_action_target a) (_retry_count a), w)).
Proof.
  intros Hc. unfold set_last_context, mbind, M_bind, read, update. cbn.
  rewrite Hc, reverse_snoc. cbn. by rewrite reverse_involutive.
Qed.

(** The end of a step, once [executed] has been dispatched with [result]. *)
Lemma conclude_step response executed result (s : agent * W) :
  fst ((_update_last_action_state executed;;
        mret (step_result response executed result)) s)
  = conclude response executed result.
Proof.
  unfold mbind, M_bind, conclude. destruct s as [a w].
  destruct (_format_action_target executed) as [tg|e] eqn:Htg.
  - by rewrite (update_state_ok _ _ _ _ Htg).
  - by rewrite (update_state_raise _ _ _ Htg).
Qed.

(** What a step returns or raises once the action is decoded: the
    outcome of the dispatch. *)
Lemma act_on_dispatch shot response act (a : agent) (w : W) ctx m :
  _context a = ctx ++ [m] ->
  (parse_action (Client.action response) = Ok act \/
   exists e, parse_action (Client.action response) = Raise e /\
             is_ValueError e = true /\
             act = finish (PStr (Client.action response))) ->
  fst (act_on shot response (a, w)) = dispatch_outcome shot response act w.
Proof.
  intros Hc Hdec.
  assert (try_except (pure_result (parse_action (Client.action response)))
            is_ValueError (a, w) = (Ok (inl act), (a, w)) \/
          exists e,
            try_except (pure_result (parse_action (Client.action response)))
              is_ValueError (a, w) = (Ok (inr e), (a, w)) /\
            act = finish (PStr (Client.action response))) as Hd.
  { unfold try_except, pure_result.
    destruct Hdec as [->|(e & -> & -> & ->)]; [by left|right; by exists e]. }
  unfold act_on, mbind, M_bind, dispatch_outcome.
  destruct Hd as [->|(e0 & -> & ->)];
    rewrite (set_last_context_snoc _ _ _ _ _ Hc);
    unfold try_except, call; cbn.
  - destruct (execute act (width shot) (height shot) w) as [[res|e] w']; cbn.
    + apply (conclude_step response act res).
    + destruct (is_Exception e); [|done]. cbn.
      destruct (execute (finish (PStr (exn_text e))) (width shot) (height shot) w')
        as [[res|e'] w'']; [|done]. cbn.
      apply (conclude_step response (finish (PStr (exn_text e))) res).
  - destruct (execute (finish (PStr (Client.action response)))
                (width shot) (height shot) w) as [[res|e] w']; cbn.
    + apply (conclude_step response (finish (PStr (Client.action response))) res).
    + destruct (is_Exception e); [|done]. cbn.
      destruct (execute (finish (PStr (exn_text e))) (width shot) (height shot) w')
        as [[res|e'] w'']; [|done]. cbn.
      apply (conclude_step response (finish (PStr (exn_text e))) res).
Qed.

(** A decoder exception that is not a [ValueError] leaves the step. *)
Lemma act_on_decode_raises shot response e (s : agent * W) :
  parse_action (Client.action response) = Raise e ->
  is_ValueError e = false ->
  fst (act_on shot response s) = Raise e.
Proof.
  intros Hp He. unfold act_on, mbind, M_bind, try_except, pure_result.
  by rewrite Hp, He.
Qed.

Lemma turn_agent_context up isf a shot app :
  exists ctx m, _context (turn_agent config up isf a shot app) = ctx ++ [m].
Proof. unfold turn_agent, sent_context. cbn. by eexists _, _. Qed.

End StepFacts.

(** ** The step counter and the loop of [run] *)

Section CountFacts.

Context {W : Type} `{Collaborators W} (config : AgentConfig).

Import Spec.

Lemma keeps_ret {A} (x : A) : keeps_count (mret x : M W A).
Proof. by intros s. Qed.

Lemma keeps_raise {A} (e : exn) : keeps_count (raise e : M W A).
Proof. by intros s. Qed.

Lemma keeps_read : keeps_count (read : M W agent).
Proof. by intros s. Qed.

Lemma keeps_pure_result {A} (r : pyresult A) : keeps_count (pure_result r : M W A).
Proof. by intros s. Qed.

Lemma keeps_call {A} (f : W -> pyresult A * W) : keeps_count (call f).
Proof. intros [a w]. unfold call. cbn. by destruct (f w). Qed.

Lemma keeps_call_total {A} (f : W -> A * W) : keeps_count (call_total f).
Proof. intros [a w]. unfold call_total. cbn. by destruct (f w). Qed.

Lemma keeps_update (f : agent -> agent) :
  (forall a, _step_count (f a) = _step_count a) ->
  keeps_count (update f : M W unit).
Proof. intros Hf [a w]. apply Hf. Qed.

Lemma keeps_bind {A B} (m : M W A) (k : A -> M W B) :
  keeps_count m -> (forall x, keeps_count (k x)) -> keeps_count (m ≫= k).
Proof.
  intros Hm Hk s. unfold mbind, M_bind. specialize (Hm s).
  destruct (m s) as [[x|e] s']; cbn in *; [|done].
  by rewrite Hk.
Qed.

Lemma keeps_try_except {A} (m : M W A) (catches : exn -> bool) :
  keeps_count m -> keeps_count (try_except m catches).
Proof.
  intros Hm s. unfold try_except. specialize (Hm s).
  destruct (m s) as [[x|e] s']; cbn in *; [done|].
  by destruct (catches e).
Qed.

Lemma keeps_append_context (m : message) :
  keeps_count (append_context m : M W unit).
Proof. by apply keeps_update. Qed.

Lemma keeps_set_last_context (f : message -> message) :
  keeps_count (set_last_context f : M W unit).
Proof.
  unfold set_last_context. apply keeps_bind; [apply keeps_read|].
  intros a. destruct (reverse (_context a)); [apply keeps_raise|].
  by apply keeps_update.
Qed.

Lemma keeps_update_last_action_state (act : pydict) :
  keeps_count (_update_last_action_state act).
Proof.
  unfold _update_last_action_state.
  apply keeps_bind; [apply keeps_pure_result|].
  intros tg. apply keeps_update. intros a.
  by destruct (_ && _).
Qed.

Lemma keeps_model_request : keeps_count model_request.
Proof.
  unfold model_request. apply keeps_bind; [apply keeps_read|].
  intros a. apply keeps_bind; [apply keeps_call_total|].
  intros stream. apply keeps_pure_result.
Qed.

Lemma keeps_act_on shot response : keeps_count (act_on shot response).
Proof.
  unfold act_on.
  apply keeps_bind; [apply keeps_try_except, keeps_pure_result|]. intros decoded.
  apply keeps_bind; [apply keeps_set_last_context|]. intros _.
  apply keeps_bind.
  { apply keeps_try_except, keeps_bind; [apply keeps_call|].
    intros result. apply keeps_ret. }
  intros dispatched. apply keeps_bind.
  { destruct dispatched as [done|e]; [apply keeps_ret|].
    apply keeps_bind; [apply keeps_call|]. intros result. apply keeps_ret. }
  intros [executed result].
  apply keeps_bind; [apply keeps_append_context|]. intros _.
  apply keeps_bind; [apply keeps_update_last_action_state|]. intros _.
  apply keeps_ret.
Qed.

(** Every step raises the step counter by one, whether it returns or
    raises. *)
Lemma step_count_succ up isf (s : agent * W) :
  _step_count (fst (snd (_execute_step config up isf s))) = _step_count (fst s) + 1.
Proof.
  unfold _execute_step. unfold mbind at 1, M_bind at 1, update at 1.
  match goal with
  | |- _step_count (fst (snd (?m ?s0))) = _ =>
    assert (keeps_count m) as K
  end.
  2: { by rewrite K. }
  apply keeps_bind; [apply keeps_call|]. intros shot.
  apply keeps_bind; [apply keeps_call|]. intros app.
  apply keeps_bind.
  { destruct isf.
    - apply keeps_bind; [apply keeps_append_context|]. intros _.
      apply keeps_bind; [apply keeps_read|]. intros a.
      apply keeps_append_context.
    - apply keeps_bind; [apply keeps_read|]. intros a.
      apply keeps_append_context. }
  intros _. apply keeps_bind; [apply keeps_try_except, keeps_model_request|].
  intros [response|e]; [apply keeps_act_on|apply keeps_ret].
Qed.

(** The loop of [run] never lacks fuel when it is given the distance to
    the ceiling. *)
Lemma run_loop_fuel (fuel : nat) (s : agent * W) :
  max_steps config - _step_count (fst s) <= Z.of_nat fuel ->
  fst (run_loop config fuel s) <> Ok None.
Proof.
  revert s. induction fuel as [|fuel IH]; intros s Hf;
    unfold run_loop; fold (run_loop config);
    unfold mbind at 1, M_bind at 1, read at 1;
    destruct (Z.ltb_spec (_step_count (fst s)) (max_steps config)); try done;
    [lia|].
  unfold mbind, M_bind.
  pose proof (step_count_succ None false s) as Hc.
  destruct (_execute_step config None false s) as [[r|e] s']; [|done].
  cbn in Hc. destruct (finished r); [done|].
  apply IH. lia.
Qed.

Lemma run_fuel (task : pystr) (s : agent * W) :
  fst (run config task s) <> Ok None.
Proof.
  unfold run, mbind, M_bind, reset, update. cbn.
  pose proof (step_count_succ (Some task) true
                (_reset_action_tracking
                   (MkAgent [] 0 (_last_action_type (fst s))
                      (_last_action_target (fst s)) (_retry_count (fst s))), snd s))
    as Hc.
  destruct (_execute_step config (Some task) true _) as [[r|e] s']; [|done].
  cbn in Hc. destruct (finished r); [done|].
  apply run_loop_fuel. lia.
Qed.


End CountFacts.

(** ** The claims on the step and on [run] *)

Section StepClaims.

Context {W : Type} `{Collaborators W} (config : AgentConfig).

Import Spec.

(** C3 (amended). In a step, an exception of the model request that is an
    [Exception] is caught and converted into the returned terminal result
    that reports it; a [ValueError] of the decoder and an [Exception] of
    the dispatch are caught and a synthesized finish action is dispatched
    instead, and when the executor returns for it the step returns a
    result with [finished] set. An error of the device snapshot or of the
    foreground-app query, and an error of the dispatch of the finish
    action that replaces a failed dispatch, are not caught: they leave
    the step. *)
Theorem step_error_conversion up isf (a : agent) (w : W) :
  (forall e w1,
     get_screenshot (device_id config) w = (Raise e, w1) ->
     fst (_execute_step config up isf (a, w)) = Raise e) /\
  (forall shot e w1 w2,
     get_screenshot (device_id config) w = (Ok shot, w1) ->
     get_current_app (device_id config) w1 = (Raise e, w2) ->
     fst (_execute_step config up isf (a, w)) = Raise e) /\
  (forall shot app w1 w2,
     get_screenshot (device_id config) w = (Ok shot, w1) ->
     get_current_app (device_id config) w1 = (Ok app, w2) ->
     (forall chunks e w3,
        open_stream (sent_context config up isf a shot app) w2
          = ((chunks, Some e), w3) ->
        is_Exception e = true ->
        fst (_execute_step config up isf (a, w)) = Ok (model_error_result e)) /\
     (forall chunks response w3,
        open_stream (sent_context config up isf a shot app) w2
          = ((chunks, None), w3) ->
        fst (Client.request (chunks, None)) = Ok response ->
        (forall e res w4,
           parse_action (Client.action response) = Raise e ->
           is_ValueError e = true ->
           execute (finish (PStr (Client.action response)))
             (width shot) (height shot) w3 = (Ok res, w4) ->
           exists r, fst (_execute_step config up isf (a, w)) = Ok r /\
                     finished r = true) /\
        (forall act e res w4 w5,
           parse_action (Client.action response) = Ok act ->
           execute act (width shot) (height shot) w3 = (Raise e, w4) ->
           is_Exception e = true ->
           execute (finish (PStr (exn_text e))) (width shot) (height shot) w4
             = (Ok res, w5) ->
           exists r, fst (_execute_step config up isf (a, w)) = Ok r /\
                     finished r = true /\
                     step_action r = Some (finish (PStr (exn_text e)))) /\
        (forall act e e' w4 w5,
           parse_action (Client.action response) = Ok act ->
           execute act (width shot) (height shot) w3 = (Raise e, w4) ->
           is_Exception e = true ->
           execute (finish (PStr (exn_text e))) (width shot) (height shot) w4
             = (Raise e', w5) ->
           fst (_execute_step config up isf (a, w)) = Raise e'))).
Proof.
  split_and!.
  - intros e w1 Hs. by eapply step_screenshot_raises.
  - intros shot e w1 w2 Hs Ha. by eapply step_app_raises.
  - intros shot app w1 w2 Hs Ha. split.
    { intros chunks e w3 Ho He.
      by rewrite (step_model_error _ _ _ _ _ _ _ _ _ _ _ _ Hs Ha Ho He). }
    intros chunks response w3 Ho Hr.
    rewrite (step_request_ok _ _ _ _ _ _ _ _ _ _ _ _ Hs Ha Ho Hr).
    destruct (turn_agent_context config up isf a shot app) as (ctx & m & Hctx).
    split_and!.
    + intros e res w4 Hp He Hx.
      rewrite (act_on_dispatch shot response
                 (finish (PStr (Client.action response))) _ _ _ _ Hctx)
        by (right; by exists e).
      unfold dispatch_outcome. rewrite Hx. unfold conclude.
      rewrite format_target_finish. eexists. split; [done|].
      cbn. by rewrite is_finish_finish.
    + intros act e res w4 w5 Hp Hx He Hx'.
      rewrite (act_on_dispatch shot response act _ _ _ _ Hctx) by by left.
      unfold dispatch_outcome. rewrite Hx, He, Hx'. unfold conclude.
      rewrite format_target_finish. eexists. split; [done|].
      cbn. by rewrite is_finish_finish.
    + intros act e e' w4 w5 Hp Hx He Hx'.
      rewrite (act_on_dispatch shot response act _ _ _ _ Hctx) by by left.
      unfold dispatch_outcome. by rewrite Hx, He, Hx'.
Qed.

(** C6 (amended). When the decoder raises a [ValueError] on the action
    text of the response, the step dispatches a synthesized finish action
    whose message is that text; when the executor returns for it, the
    step returns a result with [finished] set that carries this finish
    action, and the decoding error is not raised. *)
Theorem decode_failure_finishes up isf (a : agent) (w : W)
    shot app chunks response e res w1 w2 w3 w4 :
  get_screenshot (device_id config) w = (Ok shot, w1) ->
  get_current_app (device_id config) w1 = (Ok app, w2) ->
  open_stream (sent_context config up isf a shot app) w2 = ((chunks, None), w3) ->
  fst (Client.request (chunks, None)) = Ok response ->
  parse_action (Client.action response) = Raise e ->
  is_ValueError e = true ->
  execute (finish (PStr (Client.action response))) (width shot) (height shot) w3
    = (Ok res, w4) ->
  fst (_execute_step config up isf (a, w)) =
    Ok (MkStepResult (result_success res) true
          (Some (finish (PStr (Client.action response))))
          (Client.thinking response)
          (py_or (pyval_of_opt (result_message res))
                 (PStr (Client.action response)))).
Proof.
  intros Hs Ha Ho Hr Hp He Hx.
  rewrite (step_request_ok _ _ _ _ _ _ _ _ _ _ _ _ Hs Ha Ho Hr).
  destruct (turn_agent_context config up isf a shot app) as (ctx & m & Hctx).
  rewrite (act_on_dispatch shot response
             (finish (PStr (Client.action response))) _ _ _ _ Hctx)
    by (right; by exists e).
  unfold dispatch_outcome. rewrite Hx. unfold conclude.
  rewrite format_target_finish. unfold step_result.
  by rewrite is_finish_finish, get_message_finish.
Qed.


(** C10. When the context is not empty, [step] ignores its argument: the
    outcome of [step(task)], that is the result, the state of the agent
    with the appended user turn, and the state of the world, is that of
    [step()] for every [task]. *)
Theorem step_ignores_task (task : option pystr) (s : agent * W) :
  _context (fst s) <> [] ->
  step config task s = step config None s.
Proof.
  intros Hctx. unfold step. unfold mbind, M_bind, read.
  destruct (_context (fst s)) as [|m ctx] eqn:E; [done|].
  reflexivity.
Qed.

End StepClaims.

(** ** Concrete steps and runs *)

Section StepRuns.

Import Spec Examples.


(** C3, as the claim states it, fails: an error of the device snapshot
    leaves the step as an exception. *)
Lemma step_raises_on_device_error :
  fst (@_execute_step nat (scripted broken_device) default_config
         (Some task) true (new_agent, 0%nat)) = Raise no_device.
Proof. by vm_compute. Qed.

Lemma step_error_conversion_witness :
  fst (@_execute_step nat (scripted broken_device) default_config
         (Some task) true (new_agent, 0%nat)) = Raise no_device /\
  fst (@_execute_step nat (scripted model_down) default_config
         (Some task) true (new_agent, 0%nat))
    = Ok (model_error_result connection_error) /\
  (exists r,
     fst (@_execute_step nat (scripted garbled) default_config
            (Some task) true (new_agent, 0%nat)) = Ok r /\
     finished r = true) /\
  (exists r,
     fst (@_execute_step nat (scripted tap_offline) default_config
            (Some task) true (new_agent, 0%nat)) = Ok r /\
     finished r = true /\
     step_action r = Some (finish (PStr (exn_text device_offline)))) /\
  fst (@_execute_step nat (scripted always_offline) default_config
         (Some task) true (new_agent, 0%nat)) = Raise device_offline.
Proof.
  split_and!.
  - apply (proj1 (@step_error_conversion nat (scripted broken_device)
                    default_config (Some task) true new_agent 0%nat)
             no_device 0%nat).
    reflexivity.
  - apply (proj1 (proj2 (proj2 (@step_error_conversion nat (scripted model_down)
                    default_config (Some task) true new_agent 0%nat))
                    screen (py "Home") 0%nat 0%nat eq_refl eq_refl)
             [] connection_error 1%nat); reflexivity.
  - apply (proj1 (proj2 (proj2 (proj2 (@step_error_conversion nat (scripted garbled)
                    default_config (Some task) true new_agent 0%nat))
                    screen (py "Home") 0%nat 0%nat eq_refl eq_refl)
                    (fst garbled_reply) garbled_response 1%nat eq_refl eq_refl)
             decode_error finish_done 1%nat); reflexivity.
  - apply (proj1 (proj2 (proj2 (proj2 (proj2 (@step_error_conversion nat
                    (scripted tap_offline)
                    default_config (Some task) true new_agent 0%nat))
                    screen (py "Home") 0%nat 0%nat eq_refl eq_refl)
                    (fst tap_reply) tap_response 1%nat eq_refl eq_refl))
             tap_action device_offline finish_done 1%nat 1%nat); reflexivity.
  - apply (proj2 (proj2 (proj2 (proj2 (proj2 (@step_error_conversion nat
                    (scripted always_offline)
                    default_config (Some task) true new_agent 0%nat))
                    screen (py "Home") 0%nat 0%nat eq_refl eq_refl)
                    (fst tap_reply) tap_response 1%nat eq_refl eq_refl))
             tap_action device_offline device_offline 1%nat 1%nat); reflexivity.
Defined.

(** C6, as the claim states it, fails: the decoder rejects the action
    text, the executor raises on the finish action made from it, and the
    result of the step carries another finish action, whose message is
    the text of the executor's exception. *)
Lemma decode_failure_other_finish :
  fst (Client.request garbled_reply) = Ok garbled_response /\
  on_decode garbled_offline (Client.action garbled_response) = Raise decode_error /\
  fst (@_execute_step nat (scripted garbled_offline) default_config
         (Some task) true (new_agent, 0%nat))
    = Ok (MkStepResult true true (Some (finish (PStr (py "device offline")))) []
            (PStr (py "device offline"))) /\
  PStr (py "device offline") <> PStr (Client.action garbled_response).
Proof. split_and!; by vm_compute. Qed.

Lemma decode_failure_finishes_witness :
  fst (@_execute_step nat (scripted garbled) default_config
         (Some task) true (new_agent, 0%nat))
    = Ok (MkStepResult true true (Some (finish (PStr garbled_text))) []
            (PStr garbled_text)).
Proof.
  apply (@decode_failure_finishes nat (scripted garbled) default_config
           (Some task) true new_agent 0%nat screen (py "Home")
           (fst garbled_reply) garbled_response decode_error finish_done
           0%nat 0%nat 1%nat 1%nat); reflexivity.
Defined.



(** Scenario D: with a ceiling of 2, two requests are sent to the model. *)
Example run_ceiling_two :
  @run nat (scripted tap_forever) (with_max_steps 2) task (new_agent, 0%nat) =
  (Ok (Some MAX_STEPS_REACHED),
   (MkAgent
      (_context (fst (snd (@run nat (scripted tap_forever) (with_max_steps 2) task
                             (new_agent, 0%nat)))))
      2 (PStr (py "Tap")) (PStr (py "(100, 200)")) 2, 2%nat)).
Proof. by vm_compute. Qed.

Lemma step_ignores_task_witness :
  @step nat (scripted tap_forever) default_config (Some (py "another task"))
    agent_after_tap =
  @step nat (scripted tap_forever) default_config None agent_after_tap.
Proof.
  apply (@step_ignores_task nat (scripted tap_forever) default_config
           (Some (py "another task")) agent_after_tap).
  vm_compute. discriminate.
Defined.

End StepRuns.

(** ** Tag normalization *)

Section NormalizeFacts.

Import Client.

Lemma del_ws_from (b : bool) (s : pystr) : sub_ws_from b [] s = sub_ws [] s.
Proof.
  unfold sub_ws. revert b. induction s as [|c t IH]; intros b; [done|].
  cbn. destruct (isspace c).
  - destruct b; cbn; rewrite IH; symmetry; apply IH.
  - done.
Qed.

Lemma del_ws_space (c : char) (t : pystr) :
  isspace c = true -> sub_ws [] (c :: t) = sub_ws [] t.
Proof. intros Hc. unfold sub_ws at 1. cbn. rewrite Hc. cbn. apply del_ws_from. Qed.

Lemma del_ws_other (c : char) (t : pystr) :
  isspace c = false -> sub_ws [] (c :: t) = c :: sub_ws [] t.
Proof. intros Hc. unfold sub_ws. cbn. by rewrite Hc. Qed.

Lemma del_ws_app (s t : pystr) : sub_ws [] (s ++ t) = sub_ws [] s ++ sub_ws [] t.
Proof.
  induction s as [|c s IH]; [done|]. cbn [app].
  destruct (isspace c) eqn:Hc.
  - by rewrite !del_ws_space.
  - rewrite !del_ws_other by done. cbn. by rewrite IH.
Qed.

Lemma del_ws_idem (s : pystr) : sub_ws [] (sub_ws [] s) = sub_ws [] s.
Proof.
  induction s as [|c s IH]; [done|].
  destruct (isspace c) eqn:Hc.
  - by rewrite !del_ws_space.
  - rewrite !del_ws_other by done. by rewrite IH.
Qed.

Lemma del_ws_length (s : pystr) : (length (sub_ws [] s) <= length s)%nat.
Proof.
  induction s as [|c s IH]; [done|].
  destruct (isspace c) eqn:Hc.
  - rewrite del_ws_space by done. cbn. lia.
  - rewrite del_ws_other by done. cbn. lia.
Qed.

Lemma del_ws_elem (c : char) (s : pystr) : c ∈ sub_ws [] s -> c ∈ s.
Proof.
  induction s as [|d s IH]; [done|].
  destruct (isspace d) eqn:Hd.
  - rewrite del_ws_space by done. intros ?. right. auto.
  - rewrite del_ws_other by done. intros [->|?]%elem_of_cons; [left|right; auto].
Qed.

Lemma repl_shape (body : pystr) : repl body = LT :: sub_ws [] body ++ [GT].
Proof.
  unfold repl. rewrite del_ws_other by done.
  change (LT :: body ++ [GT]) with ([LT] ++ body ++ [GT]).
  by rewrite del_ws_app.
Qed.

Lemma span_not_gt_stop (body rest : pystr) :
  GT ∉ body -> span_not_gt (body ++ GT :: rest) = (body, GT :: rest).
Proof.
  induction body as [|c body IH]; intros Hn; [done|].
  cbn. destruct (N.eqb_spec c GT) as [->|Hc].
  - exfalso. apply Hn. left.
  - rewrite IH; [done|]. intros ?. apply Hn. by right.
Qed.

Lemma span_not_gt_all (s : pystr) : GT ∉ s -> span_not_gt s = (s, []).
Proof.
  induction s as [|c s IH]; intros Hn; [done|].
  cbn. destruct (N.eqb_spec c GT) as [->|Hc].
  - exfalso. apply Hn. left.
  - rewrite IH; [done|]. intros ?. apply Hn. by right.
Qed.

Lemma span_not_gt_spec (s : pystr) :
  (GT ∉ fst (span_not_gt s)) /\
  (snd (span_not_gt s) = [] \/ exists r, snd (span_not_gt s) = GT :: r).
Proof.
  induction s as [|c s [IH1 IH2]]; [split; [set_solver|by left]|].
  cbn. destruct (N.eqb_spec c GT) as [->|Hc].
  - cbn. split; [set_solver|]. right. by eexists.
  - destruct (span_not_gt s) as [body rest]. cbn in *. split; [|done].
    intros [?|?]%elem_of_cons; [by subst|by apply IH1].
Qed.

(** A match of the tag pattern: what the text is made of. *)
Lemma tag_match_some (s body rest : pystr) :
  tag_match s = Some (body, rest) ->
  body <> [] /\ (GT ∉ body) /\ s = LT :: body ++ GT :: rest.
Proof.
  destruct s as [|c t]; [done|]. cbn.
  destruct (N.eqb_spec c LT) as [->|]; [|done].
  pose proof (span_not_gt_app t) as Ht.
  pose proof (span_not_gt_spec t) as [Hn Hr].
  destruct (span_not_gt t) as [[|b bs] [|g r]]; try done.
  intros [= <- <-]. cbn in *. destruct Hr as [|[r' [= -> ->]]]; [done|].
  split_and!; [done|done|by rewrite Ht].
Qed.

Lemma tag_match_intro (body rest : pystr) :
  body <> [] -> GT ∉ body ->
  tag_match (LT :: body ++ GT :: rest) = Some (body, rest).
Proof.
  intros Hb Hn. cbn. rewrite span_not_gt_stop by done.
  by destruct body.
Qed.

(** A text without [>] holds no tag. *)
Lemma tag_sub_no_gt (fuel : nat) (s : pystr) : GT ∉ s -> tag_sub fuel s = s.
Proof.
  revert s. induction fuel as [|fuel IH]; intros s Hn; [done|].
  cbn. destruct (tag_match s) as [[body rest]|] eqn:Hm.
  - apply tag_match_some in Hm as (_ & _ & ->). exfalso. apply Hn. set_solver.
  - destruct s as [|c t]; [done|]. rewrite IH; [done|]. set_solver.
Qed.

Lemma tag_sub_length (fuel : nat) (s : pystr) :
  (length (tag_sub fuel s) <= length s)%nat.
Proof.
  revert s. induction fuel as [|fuel IH]; intros s; [done|].
  cbn [tag_sub]. destruct (tag_match s) as [[body rest]|] eqn:Hm.
  - apply tag_match_some in Hm as (_ & _ & ->).
    rewrite repl_shape.
    pose proof (del_ws_length body). pose proof (IH rest).
    rewrite !length_app, !length_cons, !length_app, !length_cons. cbn [length]. lia.
  - destruct s as [|c t]; [done|]. cbn. pose proof (IH t). lia.
Qed.

Lemma tag_sub_del_ws (fuel : nat) (s : pystr) :
  sub_ws [] (tag_sub fuel s) = sub_ws [] s.
Proof.
  revert s. induction fuel as [|fuel IH]; intros s; [done|].
  cbn [tag_sub]. destruct (tag_match s) as [[body rest]|] eqn:Hm.
  - apply tag_match_some in Hm as (_ & _ & ->).
    rewrite repl_shape.
    change (LT :: body ++ GT :: rest) with ([LT] ++ body ++ [GT] ++ rest).
    change ((LT :: sub_ws [] body ++ [GT]) ++ tag_sub fuel rest)
      with ([LT] ++ (sub_ws [] body ++ [GT]) ++ tag_sub fuel rest).
    rewrite !del_ws_app. by rewrite del_ws_idem, IH, <- !app_assoc.
  - destruct s as [|c t]; [done|].
    change (c :: tag_sub fuel t) with ([c] ++ tag_sub fuel t).
    change (c :: t) with ([c] ++ t).
    by rewrite !del_ws_app, IH.
Qed.

Lemma tag_sub_idem (fuel : nat) (s : pystr) :
  (length s <= fuel)%nat -> tag_sub fuel (tag_sub fuel s) = tag_sub fuel s.
Proof.
  revert s. induction fuel as [|fuel IH]; intros s Hl; [done|].
  cbn [tag_sub]. destruct (tag_match s) as [[body rest]|] eqn:Hm.
  - apply tag_match_some in Hm as (Hb & Hn & ->).
    cbn in Hl. rewrite length_app in Hl. cbn in Hl.
    rewrite repl_shape.
    assert (GT ∉ sub_ws [] body) as Hn' by (intros ?%del_ws_elem; done).
    assert (tag_sub fuel (tag_sub fuel rest) = tag_sub fuel rest) as IHr
      by (apply IH; lia).
    destruct (sub_ws [] body) as [|b bs] eqn:Hd.
    + cbn [app].
      pose proof (tag_sub_length fuel rest) as HR.
      remember (tag_sub fuel rest) as R eqn:ER.
      destruct fuel as [|fuel']; [lia|].
      change (LT :: GT :: tag_sub fuel' R = LT :: GT :: R).
      do 2 f_equal. rewrite (tag_sub_fuel fuel' (S fuel')) by lia. apply IHr.
    + match goal with
      | |- context [tag_match ?x] =>
        assert (tag_match x = Some (b :: bs, tag_sub fuel rest)) as ->
      end.
      { rewrite <- (tag_match_intro (b :: bs) (tag_sub fuel rest)) by done.
        f_equal. cbn. by rewrite <- app_assoc. }
      by rewrite repl_shape, <- Hd, del_ws_idem, IHr.
  - destruct s as [|c t]; [done|]. cbn in Hl.
    assert (tag_match (c :: tag_sub fuel t) = None) as ->.
    { cbn. cbn in Hm. destruct (c =? LT)%N; [|done].
      pose proof (span_not_gt_app t) as Ht.
      pose proof (span_not_gt_spec t) as [Hn Hr].
      destruct (span_not_gt t) as [body rest] eqn:Hs. cbn in *.
      destruct body as [|b bs].
      - destruct Hr as [->|[r ->]].
        + subst t. by destruct fuel.
        + subst t. destruct fuel as [|fuel']; [cbn in Hl; lia|]. by cbn.
      - destruct rest as [|g r]; [|done].
        rewrite app_nil_r in Ht. subst t. rewrite tag_sub_no_gt by done.
        by rewrite Hs. }
    f_equal. apply IH. lia.
Qed.

(** X1. Normalizing the tags of a text twice gives the same text as
    normalizing it once. *)
Theorem normalize_idempotent (text : pystr) :
  _normalize_xmlish_tags (_normalize_xmlish_tags text) = _normalize_xmlish_tags text.
Proof.
  unfold _normalize_xmlish_tags.
  rewrite (tag_sub_fuel _ (length text)).
  - by apply tag_sub_idem.
  - done.
  - apply tag_sub_length.
Qed.

(** X2. Tag normalization deletes whitespace and nothing else: the text
    without its whitespace is the same before and after, the result is
    never longer than the text, and a text without [>] is unchanged. *)
Theorem normalize_deletes_whitespace_only (text : pystr) :
  sub_ws [] (_normalize_xmlish_tags text) = sub_ws [] text /\
  (length (_normalize_xmlish_tags text) <= length text)%nat /\
  (GT ∉ text -> _normalize_xmlish_tags text = text).
Proof.
  unfold _normalize_xmlish_tags. split_and!.
  - apply tag_sub_del_ws.
  - apply tag_sub_length.
  - apply tag_sub_no_gt.
Qed.

End NormalizeFacts.

(** ** Extraction between tags *)

Section ExtractFacts.

Import Client Spec.

Lemma first_split_pre_free (sep text pre post : pystr) :
  sep <> [] -> first_split sep text pre post -> ~ occurs sep pre.
Proof.
  intros Hsep [-> Hmin] (p & q & ->).
  specialize (Hmin p (q ++ sep ++ post)).
  rewrite <- !app_assoc in Hmin. specialize (Hmin eq_refl).
  rewrite !length_app in Hmin.
  destruct sep; [done|]. cbn in Hmin. lia.
Qed.

(** X3. [_extract_between]: when the opening tag occurs, the result is
    the substring enclosed by the tags; when it does not, the result is
    empty. The result is always a substring of the text, and a non-empty
    closing tag never occurs in it. *)
Theorem extract_between_substring (text a b : pystr) :
  (occurs a text -> enclosed a b text (_extract_between text a b)) /\
  (~ occurs a text -> _extract_between text a b = []) /\
  occurs (_extract_between text a b) text /\
  (b <> [] -> ~ occurs b (_extract_between text a b)).
Proof.
  split_and!.
  - apply extract_between_enclosed.
  - apply extract_between_absent.
  - destruct (contains a text) eqn:Ha.
    + apply contains_occurs in Ha.
      destruct (extract_between_enclosed a b text Ha)
        as [pre rest v post [-> _] [-> _]|pre rest [-> _] _].
      * exists (pre ++ a), (b ++ post). by rewrite <- !app_assoc.
      * exists (pre ++ a), []. by rewrite app_nil_r, <- app_assoc.
    + apply contains_false in Ha. rewrite extract_between_absent by done.
      by exists [], text.
  - intros Hb. destruct (contains a text) eqn:Ha.
    + apply contains_occurs in Ha.
      destruct (extract_between_enclosed a b text Ha)
        as [pre rest v post _ Hv|pre rest _ Hn]; [|done].
      by eapply first_split_pre_free.
    + apply contains_false in Ha. rewrite extract_between_absent by done.
      intros (p & q & E). destruct p, b; done.
Qed.

End ExtractFacts.

(** ** Stripping and collapsing whitespace *)

Section StripFacts.

Import Props.

Lemma lstrip_other (c : char) (t : pystr) :
  isspace c = false -> lstrip (c :: t) = c :: t.
Proof. intros Hc. cbn. by rewrite Hc. Qed.

Lemma lstrip_head (s : pystr) :
  lstrip s = [] \/ exists c t, lstrip s = c :: t /\ isspace c = false.
Proof.
  induction s as [|c s IH]; [by left|].
  cbn. destruct (isspace c) eqn:Hc; [done|]. right. by exists c, s.
Qed.

Lemma lstrip_suffix (s : pystr) : exists w, s = w ++ lstrip s.
Proof.
  induction s as [|c s [w IH]]; [by exists []|].
  cbn. destruct (isspace c).
  - exists (c :: w). cbn. by rewrite <- IH.
  - by exists [].
Qed.

Lemma lstrip_idem (s : pystr) : lstrip (lstrip s) = lstrip s.
Proof.
  destruct (lstrip_head s) as [->|(c & t & -> & Hc)]; [done|].
  by apply lstrip_other.
Qed.

Lemma lstrip_snoc (s : pystr) (c : char) :
  isspace c = false -> lstrip (s ++ [c]) = lstrip s ++ [c].
Proof.
  intros Hc. induction s as [|d s IH]; cbn.
  - by rewrite Hc.
  - by destruct (isspace d).
Qed.

Lemma rstrip_prefix (s : pystr) : exists w, s = rstrip s ++ w.
Proof.
  unfold rstrip. destruct (lstrip_suffix (rev s)) as [w Hw].
  exists (rev w). rewrite <- rev_app_distr, <- Hw. by rewrite rev_involutive.
Qed.

Lemma rstrip_other (c : char) (t : pystr) :
  isspace c = false -> rstrip (c :: t) = c :: rstrip t.
Proof.
  intros Hc. unfold rstrip. cbn [rev].
  rewrite lstrip_snoc by done. by rewrite rev_app_distr.
Qed.

Lemma rstrip_idem (s : pystr) : rstrip (rstrip s) = rstrip s.
Proof. unfold rstrip. by rewrite rev_involutive, lstrip_idem. Qed.

Lemma lstrip_strip (s : pystr) : lstrip (strip s) = strip s.
Proof.
  unfold strip.
  destruct (lstrip_head s) as [->|(c & t & -> & Hc)]; [done|].
  rewrite rstrip_other by done. by apply lstrip_other.
Qed.

Lemma strip_idem (s : pystr) : strip (strip s) = strip s.
Proof.
  unfold strip at 1. rewrite lstrip_strip. unfold strip. apply rstrip_idem.
Qed.

Lemma lstrip_elem (c : char) (s : pystr) : c ∈ lstrip s -> c ∈ s.
Proof.
  destruct (lstrip_suffix s) as [w Hw]. intros ?. rewrite Hw. set_solver.
Qed.

Lemma rstrip_elem (c : char) (s : pystr) : c ∈ rstrip s -> c ∈ s.
Proof.
  destruct (rstrip_prefix s) as [w Hw]. intros ?. rewrite Hw. set_solver.
Qed.

Lemma strip_elem (c : char) (s : pystr) : c ∈ strip s -> c ∈ s.
Proof. intros ?%rstrip_elem. by apply lstrip_elem. Qed.

Lemma sub_ws_from_elem (b : bool) (c : char) (s : pystr) :
  c ∈ sub_ws_from b (py " ") s -> c ∈ s \/ c = 32%N.
Proof.
  revert b. induction s as [|d s IH]; intros b; [by left|].
  cbn. destruct (isspace d).
  - intros [H|H]%elem_of_app.
    + right. destruct b; [set_solver|]. by apply list_elem_of_singleton in H.
    + destruct (IH _ H); [left; by right|by right].
  - intros [->|H]%elem_of_cons; [left; left|].
    destruct (IH _ H); [left; by right|by right].
Qed.

Lemma single_blanks_sub_ws (b : bool) (s : pystr) :
  single_blanks b (sub_ws_from b (py " ") s) = true.
Proof.
  revert b. induction s as [|c s IH]; intros b; [done|].
  cbn [sub_ws_from]. destruct (isspace c) eqn:Hc.
  - destruct b; [apply IH|]. cbn. apply IH.
  - cbn. rewrite Hc. apply IH.
Qed.

Lemma single_blanks_weaken (s : pystr) :
  single_blanks true s = true -> single_blanks false s = true.
Proof. destruct s as [|c s]; [done|]. cbn. destruct (isspace c); [|done]. by rewrite andb_false_r. Qed.

Lemma single_blanks_prefix (b : bool) (s w : pystr) :
  single_blanks b (s ++ w) = true -> single_blanks b s = true.
Proof.
  revert b. induction s as [|c s IH]; intros b; [done|].
  cbn. destruct (isspace c).
  - intros [? ?]%andb_true_iff. apply andb_true_iff. split; [done|]. by apply IH.
  - apply IH.
Qed.

Lemma single_blanks_lstrip (s : pystr) :
  single_blanks false s = true -> single_blanks false (lstrip s) = true.
Proof.
  destruct s as [|c s]; [done|]. cbn. destruct (isspace c) eqn:Hc.
  - intros [_ H]%andb_true_iff.
    destruct s as [|d s]; [done|]. cbn in *.
    destruct (isspace d) eqn:Hd.
    + by rewrite andb_false_r in H.
    + cbn. by rewrite Hd.
  - intros H. cbn. by rewrite Hc.
Qed.

Lemma single_blanks_strip (s : pystr) :
  single_blanks false s = true -> single_blanks false (strip s) = true.
Proof.
  intros H%single_blanks_lstrip. unfold strip.
  destruct (rstrip_prefix (lstrip s)) as [w Hw]. rewrite Hw in H.
  by apply single_blanks_prefix in H.
Qed.

Lemma single_blanks_fixed (b : bool) (s : pystr) :
  single_blanks b s = true -> sub_ws_from b (py " ") s = s.
Proof.
  revert b. induction s as [|c s IH]; intros b; [done|].
  cbn. destruct (isspace c) eqn:Hc.
  - intros [[Hc32%N.eqb_eq Hb%negb_true_iff]%andb_true_iff H]%andb_true_iff.
    subst b c. cbn. f_equal. by apply IH.
  - intros H. f_equal. by apply IH.
Qed.

End StripFacts.

(** ** Cleaning of the streamed text *)

Section CleanFacts.

Import Client Props.

Lemma clean_chars_no_lt (text : pystr) (st : tag_state) :
  LT ∉ fst (clean_chars text st).
Proof.
  revert st. induction text as [|ch t IH]; intros st; [set_solver|].
  cbn. destruct (N.eqb_spec ch LT) as [->|Hch]; destruct (_in_tag st) eqn:Hin;
    cbn; try apply IH.
  - destruct (ch =? GT)%N; cbn; apply IH.
  - destruct (ch =? GT)%N; cbn.
    + specialize (IH st). destruct (clean_chars t st). cbn in *.
      intros [?|?]%elem_of_cons; [congruence|done].
    + specialize (IH st). destruct (clean_chars t st). cbn in *.
      intros [?|?]%elem_of_cons; [congruence|done].
Qed.

Lemma clean_chars_app (a b : pystr) (st : tag_state) :
  clean_chars (a ++ b) st =
  let '(x, st1) := clean_chars a st in
  let '(y, st2) := clean_chars b st1 in
  (x ++ y, st2).
Proof.
  revert st. induction a as [|ch a IH]; intros st.
  - cbn. by destruct (clean_chars b st).
  - cbn. destruct ((ch =? LT)%N && negb (_in_tag st)); [apply IH|].
    destruct ((ch =? GT)%N && _in_tag st); [apply IH|].
    destruct (_in_tag st); [apply IH|].
    rewrite IH. destruct (clean_chars a st) as [x st1].
    by destruct (clean_chars b st1).
Qed.

(** Collapsing the whitespace of a text and stripping it brings no new
    character but the blank. *)
Lemma collapsed_elem (c : char) (cs : pystr) :
  c ∈ strip (sub_ws (py " ") cs) -> c ∈ cs \/ c = 32%N.
Proof. by intros ?%strip_elem%sub_ws_from_elem. Qed.

(** A collapsed and stripped text holds single blanks only. *)
Lemma collapsed_fixed (cs : pystr) :
  sub_ws (py " ") (strip (sub_ws (py " ") cs)) = strip (sub_ws (py " ") cs).
Proof. apply single_blanks_fixed, single_blanks_strip, single_blanks_sub_ws. Qed.

(** X4. Whatever the fragment and the tag state, the text that
    [_clean_stream_content] returns holds no [<], has no whitespace at its
    ends, and holds whitespace only as single blanks. *)
Theorem clean_stream_content_shape (text : pystr) (st : tag_state) :
  let t := fst (_clean_stream_content text st) in
  (LT ∉ t) /\ strip t = t /\ sub_ws (py " ") t = t.
Proof.
  unfold _clean_stream_content.
  pose proof (clean_chars_no_lt text st) as Hlt.
  destruct (clean_chars text st) as [cs st']. cbn in *. split_and!.
  - intros [H|H]%collapsed_elem; [done|discriminate].
  - apply strip_idem.
  - apply collapsed_fixed.
Qed.

Lemma clean_chars_plain (text : pystr) (st : tag_state) :
  _in_tag st = false -> LT ∉ text -> clean_chars text st = (text, st).
Proof.
  intros Hin. induction text as [|ch t IH]; intros Hlt; [done|].
  cbn. rewrite Hin, andb_false_r. cbn.
  destruct (N.eqb_spec ch LT) as [->|_]; [exfalso; apply Hlt; left|].
  rewrite IH; [done|]. intros ?. apply Hlt. by right.
Qed.

(** X5. Outside a tag, a fragment without [<] is only cleaned of its
    whitespace: runs collapsed to a blank, ends stripped; the tag state is
    left as it was. *)
Theorem clean_stream_content_plain (text : pystr) (st : tag_state) :
  _in_tag st = false -> LT ∉ text ->
  _clean_stream_content text st = (strip (sub_ws (py " ") text), st).
Proof.
  intros Hin Hlt. unfold _clean_stream_content.
  by rewrite clean_chars_plain.
Qed.

(** X6. The character loop of [_clean_stream_content] goes through a
    text cut into two fragments as it goes through the whole text, the
    tag state being carried from the first fragment to the second: a tag
    cut by the boundary is still removed. *)
Theorem clean_chars_fragments (a b : pystr) (st : tag_state) :
  fst (clean_chars (a ++ b) st) =
    fst (clean_chars a st) ++ fst (clean_chars b (snd (clean_chars a st))) /\
  snd (clean_chars (a ++ b) st) = snd (clean_chars b (snd (clean_chars a st))).
Proof.
  rewrite clean_chars_app. destruct (clean_chars a st) as [x st1]. cbn.
  by destruct (clean_chars b st1).
Qed.

End CleanFacts.

(** ** The pieces of the preview *)

Section PreviewShape.

Import Client Spec Props.

Lemma printed_piece_clean (text : pystr) (st : tag_state) (piece : pystr) :
  piece ∈ print_nonempty (fst (_clean_stream_content text st)) ->
  piece <> [] /\ (LT ∉ piece) /\ strip piece = piece /\
  sub_ws (py " ") piece = piece.
Proof.
  unfold _clean_stream_content.
  pose proof (clean_chars_no_lt text st) as Hlt.
  destruct (clean_chars text st) as [cs st']. cbn [fst] in *.
  pose proof (collapsed_elem LT cs) as He.
  pose proof (strip_idem (sub_ws (py " ") cs)) as Hs.
  pose proof (collapsed_fixed cs) as Hf.
  destruct (strip (sub_ws (py " ") cs)) as [|c t]; [by intros ?%elem_of_nil|].
  cbn. intros ->%list_elem_of_singleton. split_and!; [done| |done|done].
  intros [H|H]%He; [done|discriminate].
Qed.

Lemma request_chunk_pieces st ch piece :
  piece ∈ snd (request_chunk st ch) ->
  piece = NEWLINE \/
  (piece <> [] /\ (LT ∉ piece) /\ strip piece = piece /\
   sub_ws (py " ") piece = piece).
Proof.
  unfold request_chunk.
  destruct (choices ch) as [|[content|] others]; [by intros ?%elem_of_nil| |by intros ?%elem_of_nil].
  destruct (in_action_phase st); [by intros ?%elem_of_nil|].
  destruct (detect_marker _ _) as [tp|].
  - pose proof (printed_piece_clean tp (tags st) piece) as Hp.
    destruct (_clean_stream_content tp (tags st)) as [t tg]. cbn in *.
    intros [?|Hx]%elem_of_app; [right; auto|].
    apply list_elem_of_singleton in Hx. by left.
  - destruct (is_potential_marker _ _); [by intros ?%elem_of_nil|].
    pose proof (printed_piece_clean (buffer st ++ content) (tags st) piece) as Hp.
    destruct (_clean_stream_content _ (tags st)) as [t tg]. cbn in *.
    intros ?. right. auto.
Qed.

(** X7. Every piece that the stream loop of [request] prints is either
    the line feed that ends the thinking or a non-empty cleaned text:
    without [<], without whitespace at its ends, with single blanks
    only. *)
Theorem preview_pieces_clean (chunks : list chunk) (st : stream_state)
    (piece : pystr) :
  piece ∈ snd (request_loop st chunks) ->
  piece = NEWLINE \/
  (piece <> [] /\ (LT ∉ piece) /\ strip piece = piece /\
   sub_ws (py " ") piece = piece).
Proof.
  revert st. induction chunks as [|ch chunks IH]; intros st; [by intros ?%elem_of_nil|].
  cbn [request_loop].
  pose proof (request_chunk_pieces st ch piece) as H1.
  destruct (request_chunk st ch) as [st1 out1].
  specialize (IH st1). destruct (request_loop st1 chunks) as [st2 out2].
  cbn in *. intros [?|?]%elem_of_app; auto.
Qed.

End PreviewShape.

(** ** The request as a whole *)

Section RequestFacts.

Import Client Spec.

Lemma request_chunk_flags st ch :
  let st' := fst (request_chunk st ch) in
  first_token_received st' =
    first_token_received st || bool_decide (is_Some (chunk_content ch)) /\
  (thinking_end_recorded st = in_action_phase st ->
   thinking_end_recorded st' = in_action_phase st').
Proof.
  unfold request_chunk, chunk_content.
  destruct (choices ch) as [|[content|] others]; cbn.
  - by rewrite orb_false_r.
  - rewrite orb_true_r.
    destruct (in_action_phase st) eqn:Hp; [done|].
    destruct (detect_marker _ _) as [tp|].
    { by destruct (_clean_stream_content tp (tags st)). }
    destruct (is_potential_marker _ _); [done|].
    by destruct (_clean_stream_content _ (tags st)).
  - by rewrite orb_false_r.
Qed.

Lemma request_loop_flags chunks st :
  let st' := fst (request_loop st chunks) in
  first_token_received st' =
    first_token_received st
    || bool_decide (omap chunk_content chunks <> []) /\
  (thinking_end_recorded st = in_action_phase st ->
   thinking_end_recorded st' = in_action_phase st').
Proof.
  revert st. induction chunks as [|ch chunks IH]; intros st.
  - cbn. by rewrite orb_false_r.
  - cbn [request_loop].
    pose proof (request_chunk_flags st ch) as [H1 H2].
    destruct (request_chunk st ch) as [st1 out1]. cbn in H1, H2.
    specialize (IH st1) as [H3 H4].
    destruct (request_loop st1 chunks) as [st2 out2]. cbn in *.
    split; [|auto].
    rewrite H3, H1, <- orb_assoc. f_equal.
    change (omap chunk_content (ch :: chunks))
      with (match chunk_content ch with
            | Some c => c :: omap chunk_content chunks
            | None => omap chunk_content chunks
            end).
    destruct (chunk_content ch) as [c|].
    + rewrite (bool_decide_eq_true_2 (is_Some (Some c))) by done.
      by rewrite (bool_decide_eq_true_2 (c :: _ <> [])).
    + rewrite (bool_decide_eq_false_2 (is_Some None)); [done|]. by intros [? ?].
Qed.

Lemma action_phase_iff_marker chunks :
  in_action_phase (fst (request_loop stream_init chunks)) = true <->
  holds_marker (concat_contents chunks).
Proof.
  pose proof (preview_inv_loop chunks stream_init [] preview_inv_init)
    as (segs & rest & Hraw & _ & Hout & HA & HB).
  rewrite request_loop_raw in Hraw. simpl in Hraw.
  rewrite Hraw. destruct (in_action_phase _).
  - split; [|done]. intros _.
    destruct HB as (m & post & Hm & ->).
    exists m. split; [done|]. by exists (concat segs), post.
  - split; [done|]. intros Hh. exfalso.
    destruct HB as (-> & Hnh & Hnp & Hnb).
    exact (holds_marker_app _ _ Hnh Hnp Hnb Hh).
Qed.

(** X8. After the stream loop, the time to the first token has been
    taken exactly when some chunk carried a content, and the time to the
    end of the thinking exactly when the concatenated text holds a
    marker. *)
Theorem request_time_stamps (chunks : list chunk) :
  let st := fst (request_loop stream_init chunks) in
  (first_token_received st = true <-> omap chunk_content chunks <> []) /\
  (thinking_end_recorded st = true <-> holds_marker (concat_contents chunks)).
Proof.
  pose proof (request_loop_flags chunks stream_init) as [H1 H2].
  cbn in H1, H2. cbn zeta. split.
  - rewrite H1. apply bool_decide_eq_true.
  - rewrite H2 by done. apply action_phase_iff_marker.
Qed.


End RequestFacts.

(** ** The shape of the parsed pair *)

Section ParseShape.

Import Client Spec.

Lemma lstrip_marker (m p : pystr) :
  m ∈ action_markers -> lstrip (m ++ p) = m ++ p.
Proof.
  intros [->|[->|?%elem_of_nil]%elem_of_cons]%elem_of_cons; [| |done];
    by apply lstrip_other.
Qed.

(** X10. [_parse_response] returns on every text, and in every branch
    the thinking has no whitespace at its ends and the action does not
    begin with whitespace. *)
Theorem parse_response_shape (content : pystr) :
  exists thinking action,
    _parse_response content = Ok (thinking, action) /\
    strip thinking = thinking /\ lstrip action = action.
Proof.
  unfold _parse_response.
  destruct (contains TOOL_OPEN _).
  { eexists _, _. split; [done|]. split; [apply strip_idem|].
    destruct (strip (_extract_between _ TOOL_OPEN TOOL_CLOSE)) as [|c t] eqn:E.
    - apply lstrip_strip.
    - rewrite <- E. apply lstrip_strip. }
  destruct (contains FINISH_MARKER content) eqn:Hf.
  { destruct (second_part_present _ _ Hf) as (pre & post & _ & ->). cbn.
    eexists _, _. split; [done|]. split; [apply strip_idem|].
    apply lstrip_marker. set_solver. }
  destruct (contains DO_MARKER content) eqn:Hd.
  { destruct (second_part_present _ _ Hd) as (pre & post & _ & ->). cbn.
    eexists _, _. split; [done|]. split; [apply strip_idem|].
    apply lstrip_marker. set_solver. }
  exists [], (strip content). split; [done|]. split; [done|apply lstrip_strip].
Qed.

End ParseShape.

(** ** Messages *)

Section MessageFacts.

Import Props.

Lemma filter_is_text_idem (items : list content_item) :
  filter is_text (filter is_text items) = filter is_text items.
Proof.
  induction items as [|[url|text] items IH]; [done| |].
  - by rewrite (filter_cons_False is_text) by (by intros []).
  - rewrite !(filter_cons_True is_text) by done. by rewrite IH.
Qed.

Lemma filter_is_text_no_image (items : list content_item) :
  existsb (fun item => negb (is_text item)) (filter is_text items) = false.
Proof.
  induction items as [|[url|text] items IH]; [done| |].
  - by rewrite (filter_cons_False is_text) by (by intros []).
  - by rewrite (filter_cons_True is_text) by done.
Qed.

Lemma remove_images_user (text : pystr) (image : option pystr) :
  remove_images_from_message (create_user_message text image) =
  create_user_message text None.
Proof. by destruct image as [[|c b64]|]. Qed.

(** X11. [remove_images_from_message] leaves no image in the message,
    does nothing the second time, leaves a message without image as it
    is, and turns the user message built with an image into the one built
    without. *)
Theorem remove_images_from_message_spec (m : message) :
  has_image (remove_images_from_message m) = false /\
  remove_images_from_message (remove_images_from_message m) =
    remove_images_from_message m /\
  (has_image m = false -> remove_images_from_message m = m) /\
  (forall text image,
     remove_images_from_message (create_user_message text image) =
     create_user_message text None).
Proof.
  destruct m as [r [s|items]]; unfold remove_images_from_message, has_image; cbn.
  - split_and!; try done. intros. apply remove_images_user.
  - split_and!.
    + apply filter_is_text_no_image.
    + by rewrite filter_is_text_idem.
    + intros Hn. do 2 f_equal.
      induction items as [|[url|text] items IH]; [done|done|].
      rewrite (filter_cons_True is_text) by done. f_equal. by apply IH.
    + intros. apply remove_images_user.
Qed.

End MessageFacts.

(** ** The target of an action *)

Section TargetFacts.

Context {W : Type} `{Collaborators W} (config : AgentConfig).

(** X12. With a limit of at least 3, [_truncate_text] returns a string
    no longer than the limit: the text itself when it fits, else its
    first [limit - 3] characters followed by three dots. *)
Theorem truncate_text_bound (s : pystr) (max_length : Z) :
  3 <= max_length ->
  exists t,
    _truncate_text (PStr s) max_length = Ok (PStr t) /\
    Z.of_nat (length t) <= max_length /\
    (Z.of_nat (length s) <= max_length -> t = s) /\
    (max_length < Z.of_nat (length s) ->
     t = take (Z.to_nat (max_length - 3)) s ++ py "...").
Proof.
  intros Hm. unfold _truncate_text.
  destruct (Z.leb_spec (Z.of_nat (length s)) max_length) as [Hl|Hl].
  - exists s. split_and!; [done|done|done|lia].
  - eexists. split; [done|].
    assert (slice_to s (max_length - 3) = take (Z.to_nat (max_length - 3)) s) as ->.
    { unfold slice_to, slice_index.
      destruct (Z.ltb_spec (max_length - 3) 0); [lia|]. f_equal. lia. }
    split_and!; [|lia|done].
    rewrite length_app, length_take. change (length (py "...")) with 3%nat. lia.
Qed.

Lemma in_set_raises (name : pyval) (names : list string) (e : exn) :
  in_set name names = Raise e ->
  exn_cls e = TypeError /\ exists l, name = PList l.
Proof. destruct name; try done. intros [= <-]. split; [done|by eexists]. Qed.

Lemma truncate_text_raises (text : pyval) (n : Z) (e : exn) :
  _truncate_text text n = Raise e ->
  exn_cls e = TypeError /\ forall s, text <> PStr s.
Proof.
  destruct text as [| | |s|l]; cbn; try (intros [= <-]; by split).
  - by destruct (_ <=? _).
  - destruct (_ <=? _); [done|]. intros [= <-]. by split.
Qed.

Lemma is_do_not_finish (a : pydict) : is_do a = true -> is_finish a = false.
Proof.
  unfold is_do, is_finish. destruct (get a "_metadata") as [| | |s|]; try done.
  cbn. unfold PyStr.eqb. intros ->%bool_decide_eq_true. done.
Qed.

(** X13. [_format_action_target] raises nothing but a [TypeError], and
    only on a [do] action whose name is a list or whose text is not a
    string. *)
Theorem format_action_target_raises (a : pydict) (e : exn) :
  _format_action_target a = Raise e ->
  exn_cls e = TypeError /\ is_do a = true /\
  ((exists l, get a "action" = PList l) \/
   (forall s, get_or a "text" (PStr []) <> PStr s)).
Proof.
  unfold _format_action_target.
  destruct (is_finish a); [done|].
  destruct (is_do a); [|done]. cbn [negb].
  destruct (py_eq (get a "action") (PStr (py "Launch"))); [done|].
  destruct (in_set (get a "action") ["Tap"; "Double Tap"; "Long Press"])
    as [point|e1] eqn:E1; cbn [rbind].
  2: { intros [= <-]. apply in_set_raises in E1 as [? ?]. split_and!; auto. }
  destruct point.
  { by destruct (get a "element") as [| | | |[|x [|y l]]]. }
  destruct (py_eq (get a "action") (PStr (py "Swipe"))).
  { by destruct (get a "start") as [| | | |[|x [|y l]]],
                (get a "end") as [| | | |[|x' [|y' l']]]. }
  destruct (in_set (get a "action") ["Type"; "Type_Name"])
    as [typing|e2] eqn:E2; cbn [rbind].
  2: { intros [= <-]. apply in_set_raises in E2 as [? ?]. split_and!; auto. }
  destruct typing.
  { destruct (_truncate_text _ 50) as [t|e3] eqn:E3; cbn [rbind]; [done|].
    intros [= <-]. apply truncate_text_raises in E3 as [? ?]. split_and!; auto. }
  destruct (py_eq (get a "action") (PStr (py "Wait"))); [done|].
  destruct (in_set (get a "action") ["Back"; "Home"])
    as [nav|e4] eqn:E4; cbn [rbind].
  2: { intros [= <-]. apply in_set_raises in E4 as [? ?]. split_and!; auto. }
  destruct nav; [done|].
  by destruct (py_eq (get a "action") (PStr (py "Take_over"))).
Qed.

(** X14. The target of a [Type] or [Type_Name] action whose text is a
    string is that text, as [_truncate_text] cuts it to 50 characters,
    between [text='] and [']. *)
Theorem type_target_bounded (a : pydict) (name s : pystr) :
  is_do a = true ->
  get a "action" = PStr name ->
  name = py "Type" \/ name = py "Type_Name" ->
  get_or a "text" (PStr []) = PStr s ->
  exists t,
    _truncate_text (PStr s) 50 = Ok (PStr t) /\
    _format_action_target a = Ok (PStr (py "text='" ++ t ++ py "'")).
Proof.
  intros Hdo Hname Hty Htext.
  assert (exists t, _truncate_text (PStr s) 50 = Ok (PStr t)) as [t Ht].
  { unfold _truncate_text. destruct (_ <=? _); by eexists. }
  exists t. split; [done|].
  unfold _format_action_target.
  rewrite (is_do_not_finish _ Hdo), Hdo, Hname, Htext, Ht.
  by destruct Hty as [->| ->].
Qed.

End TargetFacts.

(** ** The retry note and the composed text *)

Section NoteFacts.

Context {W : Type} `{Collaborators W} (config : AgentConfig).

Import Spec.

Lemma build_retry_note_cases (a : agent) :
  _build_retry_note config a =
  if negb (truthy (_last_action_type a)) || (_retry_count a <=? 0) then None
  else if negb (retry_reminder_threshold config =? 0)
          && (retry_reminder_threshold config <=? _retry_count a)
       then Some (base_note a ++ ESCALATION)
       else Some (base_note a).
Proof.
  unfold _build_retry_note, base_note.
  destruct (_ || _); [done|]. destruct (_ && _); by rewrite <- ?app_assoc.
Qed.

(** X15. [_build_retry_note] gives no note exactly when the stored
    type is empty or the count is not positive. A threshold of zero
    switches the escalation clause off, a negative threshold puts it on
    every note, and a positive one on the notes whose count has reached
    it. *)
Theorem retry_note_threshold (a : agent) :
  (_build_retry_note config a = None <->
   truthy (_last_action_type a) = false \/ _retry_count a <= 0) /\
  (forall note, _build_retry_note config a = Some note ->
     (retry_reminder_threshold config = 0 -> note = base_note a) /\
     (retry_reminder_threshold config < 0 -> note = base_note a ++ ESCALATION) /\
     (0 < retry_reminder_threshold config ->
      (note = base_note a ++ ESCALATION <->
       retry_reminder_threshold config <= _retry_count a))).
Proof.
  rewrite build_retry_note_cases. split.
  - destruct (truthy (_last_action_type a)); cbn;
      destruct (Z.leb_spec (_retry_count a) 0); cbn; try tauto.
    destruct (_ && _); split; try done; intros [?|?]; try done; lia.
  - intros note.
    destruct (truthy (_last_action_type a)); cbn; [|done].
    destruct (Z.leb_spec (_retry_count a) 0); cbn; [done|].
    destruct (Z.eqb_spec (retry_reminder_threshold config) 0); cbn.
    + intros [= <-]. split_and!; [done|lia|lia].
    + destruct (Z.leb_spec (retry_reminder_threshold config) (_retry_count a));
        intros [= <-]; split_and!; try done; try lia.
      intros _. split; [intros E|lia].
      apply (f_equal length) in E. rewrite length_app in E.
      assert (0 < length ESCALATION)%nat by (vm_compute; lia). lia.
Qed.

Lemma base_note_nonempty (a : agent) : base_note a <> [].
Proof.
  unfold base_note.
  destruct (py "已尝试 ") eqn:P; [vm_compute in P; discriminate|done].
Qed.

(** X16. The text composed for the user turn always ends with the base
    text, and it is the base text alone exactly when the stored type is
    empty or the count is not positive. *)
Theorem compose_user_text_suffix (a : agent) (base_text : pystr) :
  exists prefix,
    _compose_user_text config a base_text = prefix ++ base_text /\
    (prefix = [] <->
     truthy (_last_action_type a) = false \/ _retry_count a <= 0).
Proof.
  unfold _compose_user_text. rewrite build_retry_note_cases.
  pose proof (base_note_nonempty a) as Hb.
  destruct (truthy (_last_action_type a)); cbn.
  2: { exists []. split; [done|]. split; auto. }
  destruct (Z.leb_spec (_retry_count a) 0); cbn.
  { exists []. split; [done|]. split; auto. }
  destruct (_ && _).
  - destruct (base_note a ++ ESCALATION) as [|c n] eqn:E.
    { by destruct (base_note a). }
    exists ((c :: n) ++ [10; 10]%N). rewrite <- app_assoc. split; [done|].
    split; [done|]. intros [?|?]; [done|lia].
  - destruct (base_note a) as [|c n] eqn:E; [done|].
    exists ((c :: n) ++ [10; 10]%N). rewrite <- app_assoc. split; [done|].
    split; [done|]. intros [?|?]; [done|lia].
Qed.

End NoteFacts.

(** ** The context through the second half of a step *)

Section ContextFacts.

Context {W : Type} `{Collaborators W} (config : AgentConfig).

Import Spec Props.

Lemma update_state_frame (act : pydict) (s : agent * W) :
  _context (fst (snd (_update_last_action_state act s))) = _context (fst s) /\
  snd (snd (_update_last_action_state act s)) = snd s.
Proof.
  destruct s as [a w]. destruct (_format_action_target act) as [tg|e] eqn:E.
  - rewrite (update_state_ok _ _ _ _ E). cbn. by destruct (_ && _).
  - by rewrite (update_state_raise _ _ _ E).
Qed.

(** The end of a step: the assistant turn is recorded, the tracker
    updated, and the result returned unless the tracker raised. *)
Lemma step_tail_context (msg : message) (executed : pydict) (r : StepResult)
    (a : agent) (w : W) :
  let out := (append_context msg;; _update_last_action_state executed;; mret r)
               (a, w) in
  _context (fst (snd out)) = _context a ++ [msg] /\
  snd (snd out) = w /\
  (fst out = Ok r \/ exists e, fst out = Raise e).
Proof.
  unfold mbind, M_bind, append_context, update. cbn.
  match goal with
  | |- context [_update_last_action_state executed ?s] =>
    pose proof (update_state_frame executed s) as [Hc Hw];
    destruct (_update_last_action_state executed s) as [[[]|e] s']
  end; cbn in *; split_and!; try done; [by left|right; by eexists].
Qed.

Lemma bind_run {A B} (m : M W A) (k : A -> M W B) (s : agent * W) :
  (m ≫= k) s =
  match m s with
  | (Ok x, s') => k x s'
  | (Raise e, s') => (Raise e, s')
  end.
Proof. reflexivity. Qed.

Lemma decode_cases (response : Client.ModelResponse) (s : agent * W) :
  try_except (pure_result (parse_action (Client.action response))) is_ValueError s =
  match parse_action (Client.action response) with
  | Ok act => (Ok (inl act), s)
  | Raise e => if is_ValueError e then (Ok (inr e), s) else (Raise e, s)
  end.
Proof. unfold try_except, pure_result. by destruct (parse_action _). Qed.

Lemma act_on_context shot response (a : agent) (w : W) ctx m :
  _context a = ctx ++ [m] ->
  let out := act_on shot response (a, w) in
  let ctx' := _context (fst (snd out)) in
  match fst out with
  | Ok r =>
    ctx' = ctx ++ [remove_images_from_message m; answer_message response] /\
    is_Some (step_action r)
  | Raise _ =>
    ctx' = ctx ++ [m] \/
    ctx' = ctx ++ [remove_images_from_message m] \/
    ctx' = ctx ++ [remove_images_from_message m; answer_message response]
  end.
Proof.
  intros Hc. cbv zeta.
  set (P := fun out : pyresult StepResult * (agent * W) =>
    match fst out with
    | Ok r =>
      _context (fst (snd out)) =
        ctx ++ [remove_images_from_message m; answer_message response] /\
      is_Some (step_action r)
    | Raise _ =>
      _context (fst (snd out)) = ctx ++ [m] \/
      _context (fst (snd out)) = ctx ++ [remove_images_from_message m] \/
      _context (fst (snd out)) =
        ctx ++ [remove_images_from_message m; answer_message response]
    end).
  change (P (act_on shot response (a, w))).
  assert (forall executed res a1 w1,
            _context a1 = ctx ++ [remove_images_from_message m] ->
            P ((append_context (answer_message response);;
                _update_last_action_state executed;;
                mret (step_result response executed res)) (a1, w1))) as Htail.
  { intros executed res a1 w1 Ha1.
    destruct (step_tail_context (answer_message response) executed
                (step_result response executed res) a1 w1)
      as (Hctx & _ & [Hr|[e Hr]]); cbv zeta in *; subst P; cbv beta;
      rewrite Hr, Hctx, Ha1, <- app_assoc; cbn; [|auto].
    split; [done|by eexists]. }
  assert (forall e a1 w1, _context a1 = ctx ++ [remove_images_from_message m] ->
            P (Raise e, (a1, w1))) as Hraise.
  { intros e a1 w1 Ha1. subst P. cbn. auto. }
  unfold act_on. rewrite bind_run, decode_cases.
  assert (forall act,
    P ((set_last_context remove_images_from_message;;
        dispatched ← try_except
          (result ← call (execute act (width shot) (height shot));
           mret (act, result)) is_Exception;
        '(executed_action, result) ←
          match dispatched with
          | inl done => mret done
          | inr e =>
            let executed_action := finish (PStr (exn_text e)) in
            result ← call (execute executed_action (width shot) (height shot));
            mret (executed_action, result)
          end;
        append_context (answer_message response);;
        _update_last_action_state executed_action;;
        mret (step_result response executed_action result)) (a, w))) as Hact.
  { intros act.
    rewrite bind_run, (set_last_context_snoc _ _ _ _ _ Hc).
    cbv beta iota. rewrite bind_run. unfold try_except. rewrite bind_run.
    unfold call. cbn [fst snd].
    destruct (execute act (width shot) (height shot) w) as [[res|e] w'].
    - cbv beta iota. unfold mret at 1, M_ret at 1. cbv beta iota.
      rewrite bind_run. unfold mret at 1, M_ret at 1. cbv beta iota.
      by apply Htail.
    - cbv beta iota. destruct (is_Exception e); [|by apply Hraise].
      rewrite bind_run. cbv zeta. rewrite bind_run. cbn [fst snd].
      destruct (execute (finish (PStr (exn_text e))) (width shot) (height shot) w')
        as [[res|e'] w'']; [|by apply Hraise].
      cbv beta iota. unfold mret at 1, M_ret at 1. cbv beta iota.
      by apply Htail. }
  destruct (parse_action (Client.action response)) as [act|e].
  - apply Hact.
  - destruct (is_ValueError e); [apply Hact|].
    subst P. cbn. auto.
Qed.

End ContextFacts.

(** ** The agent after a step *)

Section StepStateFacts.

Context {W : Type} `{Collaborators W} (config : AgentConfig).

Import Spec Props.


(** The whole course of a step, by the answers of the collaborators. *)
Lemma step_run up isf (a : agent) (w : W) :
  _execute_step config up isf (a, w) =
  match get_screenshot (device_id config) w with
  | (Raise e, w1) => (Raise e, (counted a, w1))
  | (Ok shot, w1) =>
    match get_current_app (device_id config) w1 with
    | (Raise e, w2) => (Raise e, (counted a, w2))
    | (Ok app, w2) =>
      let a1 := turn_agent config up isf a shot app in
      match open_stream (_context a1) w2 with
      | (stream, w3) =>
        match fst (Client.request stream) with
        | Raise e =>
          if is_Exception e then (Ok (model_error_result e), (a1, w3))
          else (Raise e, (a1, w3))
        | Ok response => act_on shot response (a1, w3)
        end
      end
    end
  end.
Proof.
  unfold _execute_step, mbind, M_bind, update, call. cbn.
  destruct (get_screenshot (device_id config) w) as [[shot|e] w1]; [|done]. cbn.
  destruct (get_current_app (device_id config) w1) as [[app|e] w2]; [|done]. cbn.
  unfold turn_agent, sent_context, user_text.
  destruct isf; cbn;
    unfold append_context, read, update, mbind, M_bind; cbn;
    unfold try_except, model_request, mbind, M_bind, read, call_total, pure_result;
    cbn;
    rewrite (compose_user_text_ext _ _ a) by reflexivity;
    destruct (open_stream _ w2) as [stream w3]; cbn;
    destruct (fst (Client.request stream)) as [response|e]; try done;
    by destruct (is_Exception e).
Qed.

Lemma turn_agent_opened up isf a shot app :
  _context (turn_agent config up isf a shot app) =
  opened_context config isf a
    ++ [create_user_message (user_text config up isf a app)
          (Some (base64_data shot))].
Proof. reflexivity. Qed.

Lemma opened_context_prefix isf a :
  exists added, opened_context config isf a = _context a ++ added.
Proof.
  unfold opened_context. destruct isf; [by eexists|].
  exists []. by rewrite app_nil_r.
Qed.

(** X17. A step only appends to the conversation: whether it returns
    or raises, the context it leaves begins with the context it found. *)
Theorem step_context_append_only up isf (s : agent * W) :
  exists added,
    _context (fst (snd (_execute_step config up isf s))) =
    _context (fst s) ++ added.
Proof.
  destruct s as [a w]. rewrite step_run. cbn [fst].
  destruct (get_screenshot (device_id config) w) as [[shot|e] w1].
  2: { exists []. cbn. by rewrite app_nil_r. }
  destruct (get_current_app (device_id config) w1) as [[app|e] w2].
  2: { exists []. cbn. by rewrite app_nil_r. }
  cbv zeta. destruct (open_stream _ w2) as [stream w3].
  destruct (opened_context_prefix isf a) as [pre Hpre].
  pose proof (turn_agent_opened up isf a shot app) as Hturn.
  destruct (fst (Client.request stream)) as [response|e].
  - pose proof (act_on_context shot response _ w3 _ _ Hturn) as Hact.
    cbv zeta in Hact.
    destruct (fst (act_on shot response _)) as [r|e].
    + destruct Hact as [-> _]. rewrite Hpre, <- app_assoc. by eexists.
    + destruct Hact as [->|[->| ->]]; rewrite Hpre, <- app_assoc; by eexists.
  - destruct (is_Exception e); cbn [fst snd]; rewrite Hturn, Hpre, <- app_assoc;
      by eexists.
Qed.

Lemma image_free_app (c1 c2 : list message) :
  image_free (c1 ++ c2) = image_free c1 && image_free c2.
Proof. apply forallb_app. Qed.

(** X18. A step that returns with an action leaves the context it
    started from followed by the user turn without its image and the
    assistant turn; when no earlier message carried an image, none does
    afterwards. *)
Theorem step_leaves_no_image up isf (a : agent) (w : W) (r : StepResult) :
  fst (_execute_step config up isf (a, w)) = Ok r ->
  is_Some (step_action r) ->
  (exists app response,
     _context (fst (snd (_execute_step config up isf (a, w)))) =
     opened_context config isf a
       ++ [create_user_message (user_text config up isf a app) None;
           answer_message response]) /\
  (image_free (_context a) = true ->
   image_free (_context (fst (snd (_execute_step config up isf (a, w))))) = true).
Proof.
  rewrite step_run.
  destruct (get_screenshot (device_id config) w) as [[shot|e] w1]; [|done].
  destruct (get_current_app (device_id config) w1) as [[app|e] w2]; [|done].
  cbv zeta. destruct (open_stream _ w2) as [stream w3].
  pose proof (turn_agent_opened up isf a shot app) as Hturn.
  destruct (fst (Client.request stream)) as [response|e].
  - pose proof (act_on_context shot response _ w3 _ _ Hturn) as Hact.
    cbv zeta in Hact. intros Hr _. rewrite Hr in Hact.
    destruct Hact as [Hctx _]. rewrite remove_images_user in Hctx.
    split; [by exists app, response|].
    intros Hfree. rewrite Hctx, image_free_app.
    apply andb_true_iff. split; [|done].
    unfold opened_context. destruct isf; [|done].
    rewrite image_free_app, Hfree. done.
  - destruct (is_Exception e); [|done]. cbn. intros [= <-] [x Hx]. done.
Qed.

(** X19. A step that returns without an action has met a model error:
    its result is the result that reports the error, the agent is left
    with the user turn appended and the counter raised, the tracker
    untouched, and the user turn still carries the screenshot when there
    was one. *)
Theorem model_error_keeps_turn up isf (a : agent) (w : W) (r : StepResult) :
  fst (_execute_step config up isf (a, w)) = Ok r ->
  step_action r = None ->
  exists shot app e,
    r = model_error_result e /\
    fst (snd (_execute_step config up isf (a, w))) =
      turn_agent config up isf a shot app /\
    (base64_data shot <> [] ->
     image_free (_context (fst (snd (_execute_step config up isf (a, w)))))
     = false).
Proof.
  rewrite step_run.
  destruct (get_screenshot (device_id config) w) as [[shot|e] w1]; [|done].
  destruct (get_current_app (device_id config) w1) as [[app|e] w2]; [|done].
  cbv zeta. destruct (open_stream _ w2) as [stream w3].
  pose proof (turn_agent_opened up isf a shot app) as Hturn.
  destruct (fst (Client.request stream)) as [response|e].
  - pose proof (act_on_context shot response _ w3 _ _ Hturn) as Hact.
    cbv zeta in Hact. intros Hr Hnone. rewrite Hr in Hact.
    destruct Hact as [_ [x Hx]]. congruence.
  - destruct (is_Exception e); [|done]. cbn [fst snd]. intros [= <-] _.
    exists shot, app, e. split_and!; [done|done|].
    intros Hshot. rewrite Hturn, image_free_app.
    apply andb_false_iff. right.
    destruct (base64_data shot) as [|c b64]; done.
Qed.

(** X20. When the snapshot or the foreground-app query raises, the step
    raises with the counter already raised and the context and the
    tracker untouched; nothing has been sent to the model. *)
Theorem step_device_error_state up isf (a : agent) (w : W) :
  (forall e w1,
     get_screenshot (device_id config) w = (Raise e, w1) ->
     _execute_step config up isf (a, w) = (Raise e, (counted a, w1))) /\
  (forall shot e w1 w2,
     get_screenshot (device_id config) w = (Ok shot, w1) ->
     get_current_app (device_id config) w1 = (Raise e, w2) ->
     _execute_step config up isf (a, w) = (Raise e, (counted a, w2))).
Proof.
  split.
  - intros e w1 Hs. by rewrite step_run, Hs.
  - intros shot e w1 w2 Hs Ha. by rewrite step_run, Hs, Ha.
Qed.

End StepStateFacts.

(** ** [run], [step] and [reset] *)

Section RunFacts.

Context {W : Type} `{Collaborators W} (config : AgentConfig).

Import Spec Props.

Lemma act_on_executed shot response act res (a : agent) (w w' : W) ctx m :
  _context a = ctx ++ [m] ->
  parse_action (Client.action response) = Ok act ->
  execute act (width shot) (height shot) w = (Ok res, w') ->
  act_on shot response (a, w) =
  (append_context (answer_message response);;
   _update_last_action_state act;;
   mret (step_result response act res))
    (MkAgent (ctx ++ [remove_images_from_message m]) (_step_count a)
       (_last_action_type a) (_last_action_target a) (_retry_count a), w').
Proof.
  intros Hc Hp He. unfold act_on.
  rewrite bind_run, decode_cases, Hp. cbv beta iota.
  rewrite bind_run, (set_last_context_snoc _ _ _ _ _ Hc). cbv beta iota.
  rewrite bind_run. unfold try_except. rewrite bind_run.
  unfold call. cbn [fst snd]. rewrite He. cbv beta iota.
  unfold mret at 1, M_ret at 1. cbv beta iota.
  rewrite bind_run. unfold mret at 1, M_ret at 1. by cbv beta iota.
Qed.

(** X21. When the target of the decoded action cannot be rendered, the
    step raises that error after the action has been executed and the
    assistant turn recorded: the world is the one the executor left, the
    tracker is not updated. *)
Theorem step_raises_after_dispatch up isf (a : agent) (w : W)
    shot app chunks response act res e w1 w2 w3 w4 :
  get_screenshot (device_id config) w = (Ok shot, w1) ->
  get_current_app (device_id config) w1 = (Ok app, w2) ->
  open_stream (sent_context config up isf a shot app) w2 = ((chunks, None), w3) ->
  fst (Client.request (chunks, None)) = Ok response ->
  parse_action (Client.action response) = Ok act ->
  execute act (width shot) (height shot) w3 = (Ok res, w4) ->
  _format_action_target act = Raise e ->
  _execute_step config up isf (a, w) =
  (Raise e,
   (MkAgent
      (opened_context config isf a
         ++ [create_user_message (user_text config up isf a app) None;
             answer_message response])
      (_step_count a + 1) (_last_action_type a) (_last_action_target a)
      (_retry_count a), w4)).
Proof.
  intros Hs Ha Ho Hr Hp He Hf.
  rewrite (step_request_ok _ _ _ _ _ _ _ _ _ _ _ _ Hs Ha Ho Hr).
  rewrite (act_on_executed _ _ _ _ _ _ _ _ _
             (turn_agent_opened config up isf a shot app) Hp He).
  rewrite bind_run. unfold append_context at 1, update at 1. cbv beta iota.
  rewrite bind_run, (update_state_raise _ _ _ Hf). cbn.
  by rewrite remove_images_user, <- app_assoc.
Qed.

Lemma run_loop_count_bound (fuel : nat) (s : agent * W) :
  1 <= _step_count (fst s) <= Z.max 1 (max_steps config) ->
  1 <= _step_count (fst (snd (run_loop config fuel s)))
    <= Z.max 1 (max_steps config).
Proof.
  revert s. induction fuel as [|fuel IH]; intros s Hs;
    unfold run_loop; fold (run_loop config);
    rewrite bind_run; unfold read; cbv beta iota;
    destruct (Z.ltb_spec (_step_count (fst s)) (max_steps config)); try done.
  rewrite bind_run.
  pose proof (step_count_succ config None false s) as Hc.
  destruct (_execute_step config None false s) as [[r|e] s']; cbn in Hc.
  - destruct (finished r); [cbn; lia|]. apply IH. lia.
  - cbn. lia.
Qed.

(** X22. [run] always ends within the rounds its loop is given, and
    when it ends the step counter is at least 1 and at most the ceiling,
    or 1 when the ceiling is lower. *)
Theorem run_step_count_bound (task : pystr) (s : agent * W) :
  fst (run config task s) <> Ok None /\
  1 <= _step_count (fst (snd (run config task s))) <= Z.max 1 (max_steps config).
Proof.
  split; [apply run_fuel|].
  unfold run. rewrite bind_run. unfold reset, update. cbv beta iota.
  rewrite bind_run.
  match goal with
  | |- context [_execute_step config (Some task) true ?s0] =>
    pose proof (step_count_succ config (Some task) true s0) as Hc;
    destruct (_execute_step config (Some task) true s0) as [[r|e] s']
  end; cbn in Hc.
  - destruct (finished r); [cbn; lia|]. apply run_loop_count_bound. lia.
  - cbn. lia.
Qed.

Lemma step_later (task : option pystr) (s : agent * W) :
  _context (fst s) <> [] ->
  step config task s = _execute_step config task false s.
Proof.
  intros Hc. unfold step. rewrite bind_run. unfold read. cbv beta iota.
  rewrite bool_decide_eq_false_2; [done|].
  by destruct (_context (fst s)).
Qed.

(** X23. On an empty context, [step] without a task, or with the empty
    string, raises a [ValueError] and touches neither the agent nor the
    world, also right after [reset]; with a task it is the first step. *)
Theorem step_requires_task (task : option pystr) (a : agent) (w : W) :
  _context a = [] ->
  (truthy (pyval_of_opt task) = false ->
   step config task (a, w) =
   (Raise (Exn ValueError (py "Task is required for the first step")), (a, w))) /\
  (truthy (pyval_of_opt task) = true ->
   step config task (a, w) = _execute_step config task true (a, w)) /\
  (forall w', truthy (pyval_of_opt task) = false ->
     fst (step config task (snd (reset (a, w')))) =
     Raise (Exn ValueError (py "Task is required for the first step"))).
Proof.
  intros Hc. split_and!.
  - intros Ht. unfold step. rewrite bind_run. unfold read. cbn [fst snd].
    cbv beta iota. by rewrite Hc, Ht.
  - intros Ht. unfold step. rewrite bind_run. unfold read. cbn [fst snd].
    cbv beta iota. by rewrite Hc, Ht.
  - intros w' Ht. unfold step, reset, update. rewrite bind_run. unfold read.
    cbn. by rewrite Ht.
Qed.

Lemma step_return_context up isf (s : agent * W) (r : StepResult) :
  fst (_execute_step config up isf s) = Ok r ->
  _context (fst (snd (_execute_step config up isf s))) <> [].
Proof.
  destruct s as [a w]. rewrite step_run.
  destruct (get_screenshot (device_id config) w) as [[shot|e] w1]; [|done].
  destruct (get_current_app (device_id config) w1) as [[app|e] w2]; [|done].
  cbv zeta. destruct (open_stream _ w2) as [stream w3].
  pose proof (turn_agent_opened config up isf a shot app) as Hturn.
  destruct (fst (Client.request stream)) as [response|e].
  - pose proof (act_on_context shot response _ w3 _ _ Hturn) as Hact.
    cbv zeta in Hact. intros Hr. rewrite Hr in Hact.
    destruct Hact as [-> _]. by destruct (opened_context _ _ _).
  - destruct (is_Exception e); [|done]. cbn [fst snd]. intros _.
    rewrite Hturn. by destruct (opened_context _ _ _).
Qed.

Lemma drive_loop_run_loop (fuel : nat) (s : agent * W) :
  _context (fst s) <> [] ->
  drive_loop config fuel s = run_loop config fuel s.
Proof.
  revert s. induction fuel as [|fuel IH]; intros s Hs; [done|].
  unfold drive_loop, run_loop; fold (drive_loop config); fold (run_loop config).
  rewrite !(bind_run read). unfold read. cbv beta iota.
  destruct (_ <? _); [|done].
  rewrite !bind_run, step_later by done.
  pose proof (step_return_context None false s) as Hctx.
  destruct (_execute_step config None false s) as [[r|e] s']; [|done].
  destruct (finished r); [done|]. apply IH. by eapply Hctx.
Qed.

(** X24. For a non-empty task, [run] is what a caller obtains with
    [reset()], [step(task)] and then [step()] as long as no step reports
    the end and the counter is below the ceiling. *)
Theorem run_is_reset_then_steps (task : pystr) (s : agent * W) :
  task <> [] -> run config task s = drive config task s.
Proof.
  intros Ht. unfold run, drive. rewrite !(bind_run reset).
  unfold reset, update. cbv beta iota.
  rewrite !bind_run.
  match goal with
  | |- context [step config (Some task) ?s0] =>
    assert (step config (Some task) s0 = _execute_step config (Some task) true s0)
      as ->
  end.
  { unfold step. rewrite bind_run. unfold read. cbn. by destruct task. }
  match goal with
  | |- context [_execute_step config (Some task) true ?s0] =>
    pose proof (step_return_context (Some task) true s0) as Hctx;
    destruct (_execute_step config (Some task) true s0) as [[r|e] s']
  end; [|done].
  destruct (finished r); [done|].
  symmetry. apply drive_loop_run_loop. by eapply Hctx.
Qed.

Lemma model_error_text_truthy (e : exn) :
  py_or (PStr (py "Model error: " ++ exn_text e)) TASK_COMPLETED =
  PStr (py "Model error: " ++ exn_text e).
Proof.
  unfold py_or.
  destruct (py "Model error: ") eqn:P; [vm_compute in P; discriminate|done].
Qed.

(** X25. When the request of the first step fails with an exception
    that [except Exception] catches, [run] does not raise: it returns the
    text ["Model error: "] followed by the text of the exception, after
    one step and one request. *)
Theorem run_reports_model_error (task : pystr) (a : agent) (w : W)
    shot app chunks e w1 w2 w3 :
  get_screenshot (device_id config) w = (Ok shot, w1) ->
  get_current_app (device_id config) w1 = (Ok app, w2) ->
  open_stream
    (sent_context config (Some task) true (MkAgent [] 0 PNone PNone 0) shot app) w2
    = ((chunks, Some e), w3) ->
  is_Exception e = true ->
  fst (run config task (a, w)) =
    Ok (Some (PStr (py "Model error: " ++ exn_text e))) /\
  _step_count (fst (snd (run config task (a, w)))) = 1 /\
  snd (snd (run config task (a, w))) = w3.
Proof.
  intros Hs Ha Ho He. unfold run. rewrite bind_run.
  unfold reset, update. cbv beta iota. rewrite bind_run.
  change (_reset_action_tracking _) with (MkAgent [] 0 PNone PNone 0).
  cbn [snd].
  rewrite (step_model_error _ _ _ _ _ _ _ _ _ _ _ _ Hs Ha Ho He).
  cbv beta iota. cbn [finished model_error_result step_message].
  unfold mret, M_ret. cbn [fst snd]. by rewrite model_error_text_truthy.
Qed.

End RunFacts.

(** ** The settings file *)

Section EnvFacts.

Import Env Spec.


Lemma strip_between (c d : char) (m : pystr) :
  isspace c = false -> isspace d = false ->
  strip (c :: m ++ [d]) = c :: m ++ [d].
Proof.
  intros Hc Hd. unfold strip. rewrite lstrip_other by done.
  unfold rstrip. change (c :: m ++ [d]) with ((c :: m) ++ [d]).
  rewrite rev_app_distr. cbn [rev app]. rewrite lstrip_other by done.
  change (d :: rev m ++ [c]) with ([d] ++ rev (c :: m)).
  by rewrite rev_app_distr, rev_involutive.
Qed.

Lemma replace_char_absent (old : char) (new s : pystr) :
  old ∉ s -> replace_char old new s = s.
Proof.
  unfold replace_char. induction s as [|c s IH]; intros Hn; [done|].
  cbn. destruct (N.eqb_spec c old) as [->|_]; [exfalso; apply Hn; left|].
  cbn. rewrite IH; [done|]. intros ?. apply Hn. by right.
Qed.

Lemma replace_char_length (old a b : char) (s : pystr) :
  (length s <= length (replace_char old [a; b] s))%nat /\
  (old ∈ s -> (length s < length (replace_char old [a; b] s))%nat).
Proof.
  unfold replace_char. induction s as [|c s [IH1 IH2]];
    [split; [done|by intros ?%elem_of_nil]|].
  cbn. destruct (N.eqb_spec c old) as [->|Hc]; cbn.
  - split; intros; lia.
  - split; [lia|]. intros [?|?]%elem_of_cons; [done|]. specialize (IH2 H). lia.
Qed.

Lemma slice_inner (c d : char) (m : pystr) :
  slice (c :: m ++ [d]) 1 (-1) = m.
Proof.
  unfold slice, slice_index. cbn [length]. rewrite length_app. cbn [length].
  destruct (Z.ltb_spec 1 0); [lia|]. destruct (Z.ltb_spec (-1) 0); [|lia].
  replace (Z.to_nat (1 `min` Z.of_nat (S (length m + 1)))) with 1%nat by lia.
  replace (Z.to_nat (0 `max` (-1 + Z.of_nat (S (length m + 1)))) - 1)%nat
    with (length m) by lia.
  change (drop 1 (c :: m ++ [d])) with (m ++ [d]). by rewrite take_app_length.
Qed.

Lemma quoted_by_wrapped (q : N) (m : list N) :
  quoted_by q (q :: m ++ [q]) = true.
Proof.
  unfold quoted_by. cbn [head].
  change (q :: m ++ [q]) with ((q :: m) ++ [q]). rewrite last_snoc.
  by rewrite !N.eqb_refl.
Qed.

Lemma strip_quotes_wrapped (m : pystr) :
  _strip_quotes (QUOTE :: m ++ [QUOTE]) = m.
Proof.
  unfold _strip_quotes. rewrite strip_between by done.
  match goal with
  | |- context [quoted_by QUOTE ?x] => assert (quoted_by QUOTE x = true) as ->
  end.
  { apply quoted_by_wrapped. }
  match goal with
  | |- context [2 <=? ?x] => destruct (Z.leb_spec 2 x) as [_|Hl]
  end.
  - cbn [andb orb]. apply slice_inner.
  - cbn [length] in Hl. rewrite length_app in Hl. cbn [length] in Hl. lia.
Qed.

Lemma strip_quotes_quote (v : pystr) :
  _strip_quotes (_quote_env_value v) = escaped v.
Proof. apply strip_quotes_wrapped. Qed.

(** X26. A value quoted by [_quote_env_value] comes back from
    [_strip_quotes] with its escapes still in place; it comes back as it
    was exactly when it holds no double quote and no backslash. *)
Theorem quoted_value_read_back (v : pystr) :
  _strip_quotes (_quote_env_value v) = escaped v /\
  (escaped v = v <-> (QUOTE ∉ v) /\ (BACKSLASH ∉ v)).
Proof.
  split; [apply strip_quotes_quote|]. unfold escaped. split.
  - intros E. apply (f_equal length) in E.
    pose proof (replace_char_length BACKSLASH BACKSLASH BACKSLASH v) as [H1 H2].
    pose proof (replace_char_length QUOTE BACKSLASH QUOTE
                  (replace_char BACKSLASH [BACKSLASH; BACKSLASH] v)) as [H3 H4].
    assert (BACKSLASH ∉ v) as Hb by (intros ?%H2; lia).
    split; [|done]. intros Hq.
    rewrite (replace_char_absent BACKSLASH) in H4, E by done.
    specialize (H4 Hq). lia.
  - intros [Hq Hb]. by rewrite (replace_char_absent BACKSLASH), replace_char_absent.
Qed.


























End EnvFacts.

(** ** Concrete runs of the properties above *)

Section ExtraRuns.

Import Client Spec Examples Scenarios Props Env.

Example strip_quotes_ex : _strip_quotes (py "  'a b' ") = py "a b".
Proof. reflexivity. Qed.

Example strip_quotes_mixed :
  _strip_quotes ([QUOTE] ++ py "a'") = [QUOTE] ++ py "a'".
Proof. reflexivity. Qed.

Example strip_quotes_single : _strip_quotes (py "'") = py "'".
Proof. reflexivity. Qed.

Example quote_env_value_ex :
  _quote_env_value (py "a\b" ++ [QUOTE]) =
  [QUOTE] ++ py "a\\b\" ++ [QUOTE] ++ [QUOTE].
Proof. reflexivity. Qed.

Example read_old_file :
  read_lines old_file ∅ =
  Ok (<[py "OTHER" := py "1"]> (<[py "PHONEAGENT_API_KEY" := py "old"]> ∅)).
Proof. vm_compute. reflexivity. Qed.

Example write_old_file :
  write_env_file_update (Some (Ok old_file))
    [(KEY_API_KEY, py "sk-1"); (KEY_MODEL_NAME, py "glm")] =
  Ok [py "# settings"; env_line KEY_API_KEY (py "sk-1"); py "OTHER=1";
      env_line KEY_MODEL_NAME (py "glm")].
Proof. vm_compute. reflexivity. Qed.

Example write_new_file :
  write_env_file_update None [(KEY_API_KEY, py "sk-1")] =
  Ok (HEADER ++ [env_line KEY_API_KEY (py "sk-1")]).
Proof. vm_compute. reflexivity. Qed.

Lemma normalize_deletes_whitespace_only_witness :
  _normalize_xmlish_tags (py "a < b") = py "a < b".
Proof.
  apply (normalize_deletes_whitespace_only (py "a < b")).
  apply (bool_decide_unpack _). vm_compute. exact I.
Defined.

Lemma extract_between_substring_witness :
  ~ occurs (py "</a>") (_extract_between (py "<a>x</a>y</a>") (py "<a>") (py "</a>")).
Proof.
  apply (extract_between_substring (py "<a>x</a>y</a>") (py "<a>") (py "</a>")).
  vm_compute. discriminate.
Defined.

Lemma clean_stream_content_plain_witness :
  _clean_stream_content (py " a   b > c ") (TagState false []) =
  (py "a b > c", TagState false []).
Proof.
  apply (clean_stream_content_plain (py " a   b > c ") (TagState false [])).
  - reflexivity.
  - apply (bool_decide_unpack _). vm_compute. exact I.
Defined.

Lemma preview_pieces_clean_witness :
  py "I will" = NEWLINE \/
  (py "I will" <> [] /\ (LT ∉ py "I will") /\ strip (py "I will") = py "I will" /\
   sub_ws (py " ") (py "I will") = py "I will").
Proof.
  apply (preview_pieces_clean split_marker_chunks stream_init (py "I will")).
  apply (bool_decide_unpack _). vm_compute. exact I.
Defined.


Lemma remove_images_from_message_spec_witness :
  remove_images_from_message (create_assistant_message (py "ok")) =
  create_assistant_message (py "ok").
Proof.
  apply (remove_images_from_message_spec (create_assistant_message (py "ok"))).
  reflexivity.
Defined.

Lemma truncate_text_bound_witness :
  exists t,
    _truncate_text (PStr (py "hello")) 50 = Ok (PStr t) /\
    Z.of_nat (length t) <= 50 /\
    (Z.of_nat (length (py "hello")) <= 50 -> t = py "hello") /\
    (50 < Z.of_nat (length (py "hello")) ->
     t = take (Z.to_nat (50 - 3)) (py "hello") ++ py "...").
Proof. apply (truncate_text_bound (py "hello") 50). lia. Defined.

Lemma format_action_target_raises_witness :
  exn_cls (Exn TypeError (py "object of type 'int' has no len()")) = TypeError /\
  is_do type_number_action = true /\
  ((exists l, get type_number_action "action" = PList l) \/
   (forall s, get_or type_number_action "text" (PStr []) <> PStr s)).
Proof.
  apply (@format_action_target_raises nat (scripted tap_forever) type_number_action).
  vm_compute. reflexivity.
Defined.

Lemma type_target_bounded_witness :
  exists t,
    _truncate_text (PStr (py "hello")) 50 = Ok (PStr t) /\
    @_format_action_target nat (scripted tap_forever) type_hello_action =
      Ok (PStr (py "text='" ++ t ++ py "'")).
Proof.
  apply (@type_target_bounded nat (scripted tap_forever) type_hello_action (py "Type")).
  - reflexivity.
  - reflexivity.
  - by left.
  - reflexivity.
Defined.

Lemma retry_note_threshold_witness :
  @_build_retry_note nat (scripted tap_forever) no_reminder_config stuck_agent =
  Some (@base_note nat (scripted tap_forever) stuck_agent).
Proof.
  destruct (@_build_retry_note nat (scripted tap_forever) no_reminder_config stuck_agent)
    as [note|] eqn:E; [|vm_compute in E; discriminate].
  f_equal.
  destruct (@retry_note_threshold nat (scripted tap_forever) no_reminder_config
              stuck_agent) as [_ Hnote].
  destruct (Hnote note E) as [Hzero _]. exact (Hzero eq_refl).
Defined.

Lemma step_leaves_no_image_witness :
  image_free
    (_context (fst (snd (@_execute_step nat (scripted tap_forever) default_config
                           (Some task) true (new_agent, 0%nat))))) = true.
Proof.
  eapply (@step_leaves_no_image nat (scripted tap_forever) default_config).
  - vm_compute. reflexivity.
  - by eexists.
  - reflexivity.
Defined.

Lemma model_error_keeps_turn_witness :
  exists shot app e,
    model_error_result connection_error = model_error_result e /\
    fst (snd (@_execute_step nat (scripted model_down) default_config
                (Some task) true (new_agent, 0%nat))) =
      @turn_agent nat (scripted model_down) default_config (Some task) true
        new_agent shot app /\
    (base64_data shot <> [] ->
     image_free
       (_context (fst (snd (@_execute_step nat (scripted model_down) default_config
                              (Some task) true (new_agent, 0%nat))))) = false).
Proof.
  apply (@model_error_keeps_turn nat (scripted model_down) default_config).
  - vm_compute. reflexivity.
  - reflexivity.
Defined.

Lemma step_device_error_state_witness :
  @_execute_step nat (scripted broken_device) default_config (Some task) true
    (new_agent, 0%nat) = (Raise no_device, (counted new_agent, 0%nat)).
Proof.
  apply (@step_device_error_state nat (scripted broken_device) default_config).
  reflexivity.
Defined.

Lemma step_raises_after_dispatch_witness :
  @_execute_step nat (scripted typing_number) default_config (Some task) true
    (new_agent, 0%nat) =
  (Raise (Exn TypeError (py "object of type 'int' has no len()")),
   (MkAgent
      (opened_context default_config true new_agent
         ++ [create_user_message
               (@user_text nat (scripted typing_number) default_config
                  (Some task) true new_agent (py "Home")) None;
             answer_message tap_response])
      (_step_count new_agent + 1) (_last_action_type new_agent)
      (_last_action_target new_agent) (_retry_count new_agent), 1%nat)).
Proof.
  eapply (@step_raises_after_dispatch nat (scripted typing_number) default_config
            (Some task) true new_agent 0%nat screen (py "Home")
            (fst tap_reply) tap_response type_number_action tapped).
  - reflexivity.
  - reflexivity.
  - reflexivity.
  - vm_compute. reflexivity.
  - reflexivity.
  - reflexivity.
  - vm_compute. reflexivity.
Defined.

Lemma step_requires_task_witness :
  @step nat (scripted tap_forever) default_config None (new_agent, 0%nat) =
  (Raise (Exn ValueError (py "Task is required for the first step")),
   (new_agent, 0%nat)).
Proof.
  apply (@step_requires_task nat (scripted tap_forever) default_config None
           new_agent 0%nat); reflexivity.
Defined.

Lemma run_is_reset_then_steps_witness :
  @run nat (scripted tap_forever) (with_max_steps 2) task (new_agent, 0%nat) =
  @drive nat (scripted tap_forever) (with_max_steps 2) task (new_agent, 0%nat).
Proof.
  apply (@run_is_reset_then_steps nat (scripted tap_forever)).
  vm_compute. discriminate.
Defined.

Lemma run_reports_model_error_witness :
  fst (@run nat (scripted model_down) default_config task (agent_after_tap.1, 0%nat)) =
    Ok (Some (PStr (py "Model error: " ++ exn_text connection_error))) /\
  _step_count
    (fst (snd (@run nat (scripted model_down) default_config task
                 (agent_after_tap.1, 0%nat)))) = 1 /\
  snd (snd (@run nat (scripted model_down) default_config task
              (agent_after_tap.1, 0%nat))) = 1%nat.
Proof.
  eapply (@run_reports_model_error nat (scripted model_down) default_config task
            (agent_after_tap.1) 0%nat screen (py "Home") []).
  - reflexivity.
  - reflexivity.
  - reflexivity.
  - reflexivity.
Defined.



End ExtraRuns.
